(** * Cambrian API client: response normalisation and request construction

    A shallow embedding of [src/cambrian_client.py] (class [CambrianAPI]):
    the constructor [__init__], the normaliser [parse_response] and the
    request builder [_make_request], followed by the properties the
    specification states about them.

    Python values are modelled by the data they are at run time:
    - a [str] is a [string]; the characters the client inspects are the
      slash and, in a method name, the ASCII letters, on which the
      byte-wise and the code-point-wise readings agree;
    - a value decoded from JSON is a [value];
    - a [dict] that is only read is a [gmap]; a [dict] that is built and
      returned keeps its insertion order and is an association list with
      pairwise distinct keys ([PyDict]);
    - a statement that can raise returns in the [raises] monad. *)

From Stdlib Require Import Floats.PrimFloat.
From stdpp Require Import base option list strings gmap.

#[local] Set Warnings "-register-all,-inexact-float".

(** ** Exceptions *)

Inductive exception : Type :=
  | KeyError (key : string)
  | IndexError
  | ValueError (msg : string)
  | HTTPError (status_code : Z)
  | RequestException
  | JSONDecodeError
  | OSError (errno : Z) (strerror : string).

Inductive raises (A : Type) : Type :=
  | Return (a : A)
  | Raise (e : exception).
Arguments Return {A} a.
Arguments Raise {A} e.

#[global] Instance raises_ret : MRet raises := @Return.
#[global] Instance raises_bind : MBind raises := λ A B f m,
  match m with
  | Return a => f a
  | Raise e => Raise e
  end.

(** ** JSON values *)

Inductive value : Type :=
  | VNone
  | VBool (b : bool)
  | VInt (z : Z)
  | VFloat (f : float)
  | VStr (s : string)
  | VList (l : list value)
  | VDict (d : list (string * value)).

(** ** Python dictionaries that are built: insertion-ordered *)

Module PyDict.
Section dict.
Context {V : Type}.

Definition t : Type := list (string * V).

Definition empty : t := [].

(** [d[k] = v]: an existing key keeps its position and takes the new
    value, a new key goes to the end. *)
Fixpoint setitem (k : string) (v : V) (d : t) : t :=
  match d with
  | [] => [(k, v)]
  | (k', v') :: d' =>
      if decide (k' = k) then (k', v) :: d' else (k', v') :: setitem k v d'
  end.

(** [d.get(k)] *)
Fixpoint get (k : string) (d : t) : option V :=
  match d with
  | [] => None
  | (k', v') :: d' => if decide (k' = k) then Some v' else get k d'
  end.

(** [list(d.keys())] *)
Definition keys (d : t) : list string := d.*1.

(** [len(d)] *)
Definition len (d : t) : nat := length d.
End dict.
Arguments t : clear implicits.
End PyDict.

Abbreviation pydict := (PyDict.t value).

(** The assignments [d[k] = v] of a list of pairs, in order. *)
Definition assign_all {V : Type} (kvs : list (string * V)) (d : PyDict.t V)
    : PyDict.t V :=
  foldl (λ acc kv, PyDict.setitem kv.1 kv.2 acc) d kvs.

(** ** The columnar response *)

(** A column descriptor, [{'name': ..., 'type': ...}]: a dict of
    strings that the client only reads. *)
Abbreviation col_info := (gmap string string).

(** A row of the table: positional values. *)
Abbreviation row := (list value).

(** One result-block [{'columns': [...], 'data': [...], 'rows': N}].
    [parse_response] reads it through [.get('columns', [])] and
    [.get('data', [])] only; a field is [None] when the block has no such
    key. *)
Record result_block : Type := {
  columns : option (list col_info);
  data : option (list row);
}.

(** [d[k]] on a dict that is read *)
Definition getitem (d : col_info) (k : string) : raises string :=
  match d !! k with
  | Some v => Return v
  | None => Raise (KeyError k)
  end.

(** [l[i]] on a list, for an index that is not negative *)
Definition index {A : Type} (l : list A) (i : nat) : raises A :=
  match l !! i with
  | Some x => Return x
  | None => Raise IndexError
  end.

(** [d.get(k, dflt)], the entry for [k] being [o] *)
Definition get_or {A : Type} (o : option A) (dflt : A) : A :=
  match o with
  | Some x => x
  | None => dflt
  end.

(** ** [CambrianAPI.parse_response] *)

(** The inner loop [for i, col_info in enumerate(columns)], entered with
    counter [i] and the record built so far. *)
Fixpoint for_columns (i : nat) (columns : list col_info) (r : row)
    (row_dict : pydict) : raises pydict :=
  match columns with
  | [] => Return row_dict
  | col_info :: columns' =>
      col_name ← getitem col_info "name";
      row_dict' ← (if bool_decide (i < length r)
                   then v ← index r i;
                        Return (PyDict.setitem col_name v row_dict)
                   else Return row_dict);
      for_columns (S i) columns' r row_dict'
  end.

(** The outer loop [for row in data_rows], entered with the list
    [parsed] built so far. *)
Fixpoint for_rows (columns : list col_info) (data_rows : list row)
    (parsed : list pydict) : raises (list pydict) :=
  match data_rows with
  | [] => Return parsed
  | r :: data_rows' =>
      row_dict ← for_columns 0 columns r PyDict.empty;
      for_rows columns data_rows' (parsed ++ [row_dict])
  end.

(** [response] is [None] or a list of result-blocks; the method does not
    read [self]. *)
Definition parse_response (response : option (list result_block))
    : raises (list pydict) :=
  match response with
  | None => Return []
  | Some [] => Return []
  | Some (result :: _) =>
      let columns := get_or (columns result) [] in
      let data_rows := get_or (data result) [] in
      for_rows columns data_rows []
  end.

(** The worked example of the specification. *)
Definition example_columns : list col_info :=
  [ {["name" := "symbol"]}; {["name" := "price"]} ].

Definition example_rows : list row :=
  [ [VStr "SOL"; VFloat 150.2]; [VStr "BTC"] ].

Definition example_block : result_block :=
  {| columns := Some example_columns; data := Some example_rows |}.

Definition example_response : option (list result_block) :=
  Some [example_block].

Definition example_records : list pydict :=
  [ [("symbol", VStr "SOL"); ("price", VFloat 150.2)];
    [("symbol", VStr "BTC")] ].

(** Columns of which the first and the last bear the same name. *)
Definition duplicate_columns : list col_info :=
  [ {["name" := "a"]}; {["name" := "b"]}; {["name" := "a"]} ].

(** [names] lists the ['name'] entries of the descriptors, in order; in
    particular every descriptor has one, as the data model of a columnar
    response asks. *)
Definition column_names (columns : list col_info) (names : list string) : Prop :=
  Forall2 (λ c n, c !! "name" = Some n) columns names.

(** The record of one row: the assignments [row_dict[name_i] = r[i]] for
    the positions that both lists have. *)
Definition zip_record (names : list string) (r : row) : pydict :=
  assign_all (zip names r) PyDict.empty.

(** What a key of the record of a row reads, told without the dictionary:
    the value under the last column of that name that the row reaches. *)
Fixpoint last_aligned (names : list string) (r : row) (n : string) : option value :=
  match names, r with
  | n' :: names', v :: r' =>
      match last_aligned names' r' n with
      | Some w => Some w
      | None => if decide (n' = n) then Some v else None
      end
  | _, _ => None
  end.

(** ** Strings: [str.lstrip], [str.rstrip], [str.upper] *)

Definition char_in (a : Ascii.ascii) (chars : string) : bool :=
  bool_decide (a ∈ String.list_ascii_of_string chars).

(** [s.lstrip(chars)] *)
Fixpoint lstrip (chars : string) (s : string) : string :=
  match s with
  | EmptyString => EmptyString
  | String a s' => if char_in a chars then lstrip chars s' else s
  end.

(** [s.rstrip(chars)] *)
Fixpoint rstrip (chars : string) (s : string) : string :=
  match s with
  | EmptyString => EmptyString
  | String a s' =>
      match rstrip chars s' with
      | EmptyString => if char_in a chars then EmptyString else String a EmptyString
      | t => String a t
      end
  end.

(** [s.startswith('/')] *)
Definition starts_with_slash (s : string) : bool :=
  match s with
  | EmptyString => false
  | String a _ => char_in a "/"
  end.

(** [s.endswith('/')] *)
Fixpoint ends_with_slash (s : string) : bool :=
  match s with
  | EmptyString => false
  | String a s' =>
      match s' with
      | EmptyString => char_in a "/"
      | String _ _ => ends_with_slash s'
      end
  end.

Definition upper_ascii (a : Ascii.ascii) : Ascii.ascii :=
  let n := Ascii.nat_of_ascii a in
  if bool_decide (97 ≤ n ≤ 122) then Ascii.ascii_of_nat (n - 32) else a.

(** [s.upper()], for the ASCII text that HTTP method names are *)
Fixpoint upper (s : string) : string :=
  match s with
  | EmptyString => EmptyString
  | String a s' => String (upper_ascii a) (upper s')
  end.

(** [s.isascii()]. On such a string [upper] is [str.upper]; beyond ASCII
    [str.upper] can give ASCII letters that [upper] does not (it maps
    U+017F to [S]), so a statement that needs [upper s] to differ from
    a word asks for [is_ascii s]. *)
Fixpoint is_ascii (s : string) : bool :=
  match s with
  | EmptyString => true
  | String a s' => bool_decide (Ascii.nat_of_ascii a < 128) && is_ascii s'
  end.

(** ** [CambrianAPI.__init__] *)

(** [os.environ] *)
Abbreviation environ := (gmap string string).

(** The instance: its key, its base URL, and the headers set on its
    session. *)
Record CambrianAPI : Type := {
  api_key : string;
  base_url : string;
  session : PyDict.t string;
}.

(** Truth value of an [Optional[str]]: [None] and [''] are false. *)
Definition truthy (o : option string) : bool :=
  match o with
  | Some s => negb (bool_decide (s = ""))
  | None => false
  end.

(** [a or b], both [Optional[str]] *)
Definition py_or (a b : option string) : option string :=
  if truthy a then a else b.

(** [a or b], with [b] a [str] *)
Definition py_or_str (a : option string) (b : string) : string :=
  match py_or a (Some b) with
  | Some s => s
  | None => b
  end.

(** [os.getenv(k)] *)
Definition getenv (env : environ) (k : string) : option string := env !! k.

(** [os.getenv(k, dflt)] *)
Definition getenv_default (env : environ) (k dflt : string) : string :=
  get_or (env !! k) dflt.

Definition api_key_required : string :=
  "API key is required. Either:
1. Pass it as parameter: CambrianAPI('your_key')
2. Set CAMBRIAN_API_KEY environment variable
3. Create .env file with CAMBRIAN_API_KEY=your_key".

(** The base URL as configured:
    [base_url or os.getenv('CAMBRIAN_BASE_URL', 'https://...')]. *)
Definition configured_base_url (env : environ) (base_url : option string)
    : string :=
  py_or_str base_url
    (getenv_default env "CAMBRIAN_BASE_URL"
       "https://opabinia.cambrian.network/api/v1").

(** [env] is [os.environ] at the time of the call. The test
    [if not self.api_key] raises on [None] and on ['']; past it the key
    is a non-empty [str]. *)
Definition __init__ (env : environ) (api_key base_url : option string)
    : raises CambrianAPI :=
  let self_api_key := py_or api_key (getenv env "CAMBRIAN_API_KEY") in
  let self_base_url := rstrip "/" (configured_base_url env base_url) in
  match self_api_key with
  | Some key =>
      if negb (truthy (Some key)) then Raise (ValueError api_key_required)
      else Return {| api_key := key;
                     base_url := self_base_url;
                     session := [("X-API-KEY", key);
                                 ("Content-Type", "application/json");
                                 ("User-Agent", "CambrianAPI-Python-Client")] |}
  | None => Raise (ValueError api_key_required)
  end.

(** ** [CambrianAPI._make_request] *)

Inductive http_method : Type := GET | POST.

(** One call on the session: [session.get(url, params=...)] or
    [session.post(url, json=..., params=...)]. *)
Record http_call : Type := {
  call_method : http_method;
  call_url : string;
  call_headers : PyDict.t string;
  call_params : option pydict;
  call_json : option pydict;
}.

(** What comes back: no response at all, or a status code and a body,
    the body being [None] when it is not JSON. *)
Inductive http_reply : Type :=
  | NoReply
  | Reply (status_code : Z) (body : option value).

(** The remote side. *)
Abbreviation network := (http_call → http_reply).

(** [response.raise_for_status()] *)
Definition raise_for_status (status_code : Z) : raises unit :=
  if bool_decide (400 ≤ status_code < 600)%Z then Raise (HTTPError status_code)
  else Return ().

(** [response.json()] *)
Definition json (body : option value) : raises value :=
  match body with
  | Some v => Return v
  | None => Raise JSONDecodeError
  end.

(** The call, then [raise_for_status] and [json] on its response. *)
Definition send (net : network) (call : http_call) : raises value :=
  match net call with
  | NoReply => Raise RequestException
  | Reply status_code body =>
      _ ← raise_for_status status_code;
      json body
  end.

(** Returns the calls issued on the session, and the result or the
    exception that leaves the method (the handlers print and re-raise). *)
Definition _make_request (self : CambrianAPI) (net : network)
    (endpoint method : string) (params data : option pydict)
    : list http_call * raises value :=
  let url := base_url self +:+ "/" +:+ lstrip "/" endpoint in
  if bool_decide (upper method = "GET") then
    let call := {| call_method := GET; call_url := url;
                   call_headers := session self;
                   call_params := params; call_json := None |} in
    ([call], send net call)
  else if bool_decide (upper method = "POST") then
    let call := {| call_method := POST; call_url := url;
                   call_headers := session self;
                   call_params := params; call_json := data |} in
    ([call], send net call)
  else
    ([], Raise (ValueError ("Unsupported HTTP method: " +:+ method))).

(** ** [load_env] *)

(** The characters [str.strip()] removes, among the code points below
    256: tab to carriage return, the four separators, the space, next
    line and the no-break space. *)
Definition whitespace : string :=
  String.string_of_list_ascii
    (Ascii.ascii_of_nat <$> [9; 10; 11; 12; 13; 28; 29; 30; 31; 32; 133; 160]).

(** The character of code point zero. *)
Definition NUL : string := String (Ascii.ascii_of_nat 0) EmptyString.

(** [s.strip()] *)
Definition strip (s : string) : string :=
  lstrip whitespace (rstrip whitespace s).

(** [c in s], for a one-character [c] *)
Fixpoint contains (c : string) (s : string) : bool :=
  match s with
  | EmptyString => false
  | String a s' => char_in a c || contains c s'
  end.

(** [s.split(c, 1)], for a one-character [c]: the part before the first
    [c] and, when there is a [c], the part after it. *)
Fixpoint split1 (c : string) (s : string) : string * option string :=
  match s with
  | EmptyString => (EmptyString, None)
  | String a s' =>
      if char_in a c then (EmptyString, Some s')
      else let '(k, v) := split1 c s' in (String a k, v)
  end.

(** [key, value = parts] *)
Definition unpack2 (parts : string * option string) : raises (string * string) :=
  match parts with
  | (k, Some v) => Return (k, v)
  | (_, None) => Raise (ValueError "not enough values to unpack (expected 2, got 1)")
  end.

(** [os.environ[k] = v] on a POSIX system (CPython 3.11): [putenv]
    refuses a name or a value with a NUL and then a name with an equals
    sign, both with [ValueError]; [setenv] refuses the empty name with
    [EINVAL], which comes out as [OSError(22, 'Invalid argument')]. *)
Definition environ_setitem (env : environ) (k v : string) : raises environ :=
  if contains NUL k || contains NUL v then
    Raise (ValueError "embedded null byte")
  else if contains "=" k then
    Raise (ValueError "illegal environment variable name")
  else if bool_decide (k = "") then
    Raise (OSError 22 "Invalid argument")
  else Return (<[k := v]> env).

(** The body of [for line in f], on the environment so far. *)
Definition load_env_line (env : environ) (line : string) : raises environ :=
  let line := strip line in
  if negb (bool_decide (line = "")) && negb (String.prefix "#" line)
     && contains "=" line
  then
    '(key, value) ← unpack2 (split1 "=" line);
    environ_setitem env (strip key) (strip value)
  else Return env.

Fixpoint for_lines (env : environ) (f : list string) : raises environ :=
  match f with
  | [] => Return env
  | line :: f' =>
      env' ← load_env_line env line;
      for_lines env' f'
  end.

(** [env_file] is the list of the lines of [.env], each as the iteration
    over the file gives it (text of code points below 256), or [None]
    when [os.path.exists] says there is no such file. [env] is
    [os.environ] before the call; the result is [os.environ] after it. *)
Definition load_env (env_file : option (list string)) (env : environ)
    : raises environ :=
  match env_file with
  | Some f => for_lines env f
  | None => Return env
  end.

(** All the characters of [s] are among [chars]. *)
Fixpoint all_in (chars : string) (s : string) : bool :=
  match s with
  | EmptyString => true
  | String a s' => char_in a chars && all_in chars s'
  end.

(** [s] has no whitespace at either end: [s.strip() == s]. *)
Definition trimmed (s : string) : Prop :=
  lstrip whitespace s = s ∧ rstrip whitespace s = s.

(** ** [CambrianAPI.test_endpoints] *)

(** [try: body except Exception: handler] *)
Definition try_except {A : Type} (body : raises A) (handler : exception → raises A)
    : raises A :=
  match body with
  | Return a => Return a
  | Raise e => handler e
  end.

(** [self.session.get(url)] *)
Definition probe (self : CambrianAPI) (path : string) : http_call :=
  {| call_method := GET;
     call_url := base_url self +:+ "/" +:+ path;
     call_headers := session self;
     call_params := None; call_json := None |}.

(** One round of the loop over [test_paths]: the call it issues, and
    [Some v] when the round returns [v], [None] when it goes on to the
    next path. *)
Definition test_path (self : CambrianAPI) (net : network) (path : string)
    : http_call * raises (option value) :=
  let call := probe self path in
  (call,
   try_except
     (match net call with
      | NoReply => Raise RequestException
      | Reply status_code body =>
          if bool_decide (status_code = 200%Z) then
            v ← json body; Return (Some v)
          else Return None
      end)
     (λ e, Return None)).

Fixpoint for_test_paths (self : CambrianAPI) (net : network)
    (test_paths : list string) : list http_call * raises value :=
  match test_paths with
  | [] => ([], Return VNone)
  | path :: test_paths' =>
      let '(call, r) := test_path self net path in
      match r with
      | Return (Some v) => ([call], Return v)
      | Return None =>
          let '(calls, r') := for_test_paths self net test_paths' in
          (call :: calls, r')
      | Raise e => ([call], Raise e)
      end
  end.

Definition test_paths : list string :=
  ["solana/latest-block"; "solana/tokens"; "solana/trending-tokens"].

Definition test_endpoints (self : CambrianAPI) (net : network)
    : list http_call * raises value :=
  for_test_paths self net test_paths.

(** ** The endpoint methods

    An argument with a default is an [option], [None] standing for the
    argument left out. *)

Definition get_latest_block (self : CambrianAPI) (net : network)
    : list http_call * raises value :=
  _make_request self net "solana/latest-block" "GET" None None.

Definition get_trending_tokens (self : CambrianAPI) (net : network)
    (order_by : option string) (limit : option Z)
    : list http_call * raises value :=
  let params : pydict :=
    [("order_by", VStr (get_or order_by "volume_usd_24h"));
     ("limit", VInt (get_or limit 10%Z))] in
  _make_request self net "solana/trending-tokens" "GET" (Some params) None.

Definition get_tokens (self : CambrianAPI) (net : network)
    (limit offset : option Z) : list http_call * raises value :=
  let params : pydict :=
    [("limit", VInt (get_or limit 100%Z)); ("offset", VInt (get_or offset 0%Z))] in
  _make_request self net "solana/tokens" "GET" (Some params) None.

Definition get_token_details (self : CambrianAPI) (net : network)
    (token_address : string) : list http_call * raises value :=
  let params : pydict := [("token_address", VStr token_address)] in
  _make_request self net "solana/token-details" "GET" (Some params) None.

Definition get_current_price (self : CambrianAPI) (net : network)
    (token_address : string) : list http_call * raises value :=
  let params : pydict := [("token_address", VStr token_address)] in
  _make_request self net "solana/price-current" "GET" (Some params) None.

Definition get_multiple_prices (self : CambrianAPI) (net : network)
    (token_addresses : list string) : list http_call * raises value :=
  let params : pydict :=
    [("token_addresses", VStr (String.concat "," token_addresses))] in
  _make_request self net "solana/price-multi" "GET" (Some params) None.

Definition get_price_history (self : CambrianAPI) (net : network)
    (token_address : string) (hours_back : option Z)
    : list http_call * raises value :=
  let params : pydict :=
    [("token_address", VStr token_address);
     ("hours_back", VInt (get_or hours_back 24%Z))] in
  _make_request self net "solana/price-hour" "GET" (Some params) None.

Definition get_ohlcv (self : CambrianAPI) (net : network)
    (token_address : string) (timeframe : option string) (limit : option Z)
    : list http_call * raises value :=
  let params : pydict :=
    [("token_address", VStr token_address);
     ("timeframe", VStr (get_or timeframe "1h"));
     ("limit", VInt (get_or limit 100%Z))] in
  _make_request self net "solana/ohlcv/token" "GET" (Some params) None.

Definition get_holder_balances (self : CambrianAPI) (net : network)
    (holder_address : string) (limit : option Z)
    : list http_call * raises value :=
  let params : pydict :=
    [("holder", VStr holder_address); ("limit", VInt (get_or limit 20%Z))] in
  _make_request self net "solana/holder-token-balances" "GET" (Some params) None.

Definition get_wallet_history (self : CambrianAPI) (net : network)
    (wallet_address : string) (after_time : option string)
    : list http_call * raises value :=
  let params : pydict := [("wallet_address", VStr wallet_address)] in
  let params : pydict :=
    match after_time with
    | Some t =>
        if truthy after_time then PyDict.setitem "after_time" (VStr t) params
        else params
    | None => params
    end in
  _make_request self net "solana/wallet-balance-history" "GET" (Some params) None.

Definition get_trade_statistics (self : CambrianAPI) (net : network)
    (token_addresses : list string) (timeframe : option string)
    : list http_call * raises value :=
  let params : pydict :=
    [("token_addresses", VStr (String.concat "," token_addresses));
     ("timeframe", VStr (get_or timeframe "24h"))] in
  _make_request self net "solana/trade-statistics" "GET" (Some params) None.

Definition get_token_transactions (self : CambrianAPI) (net : network)
    (token_address : string) (limit : option Z)
    : list http_call * raises value :=
  let params : pydict :=
    [("token_address", VStr token_address); ("limit", VInt (get_or limit 50%Z))] in
  _make_request self net "solana/token-transactions" "GET" (Some params) None.

Definition get_traders_leaderboard (self : CambrianAPI) (net : network)
    (token_address : string) (limit : option Z)
    : list http_call * raises value :=
  let params : pydict :=
    [("token_address", VStr token_address); ("limit", VInt (get_or limit 10%Z))] in
  _make_request self net "solana/traders/leaderboard" "GET" (Some params) None.

Definition search_token_pools (self : CambrianAPI) (net : network)
    (token_address : string) (limit : option Z)
    : list http_call * raises value :=
  let params : pydict :=
    [("token_address", VStr token_address); ("limit", VInt (get_or limit 10%Z))] in
  _make_request self net "solana/token-pool-search" "GET" (Some params) None.

Definition get_pool_details (self : CambrianAPI) (net : network)
    (pool_address : string) : list http_call * raises value :=
  let params : pydict := [("pool_address", VStr pool_address)] in
  _make_request self net "solana/orca/pool" "GET" (Some params) None.

Definition get_pool_fee_metrics (self : CambrianAPI) (net : network)
    (pool_address : string) (timeframe_days : option Z)
    : list http_call * raises value :=
  let params : pydict :=
    [("pool_address", VStr pool_address);
     ("timeframe_days", VInt (get_or timeframe_days 7%Z))] in
  _make_request self net "solana/orca/pools/fee-metrics" "GET" (Some params) None.

Definition get_pool_transactions (self : CambrianAPI) (net : network)
    (pool_address : string) (limit : option Z)
    : list http_call * raises value :=
  let params : pydict :=
    [("pool_address", VStr pool_address); ("limit", VInt (get_or limit 50%Z))] in
  _make_request self net "solana/pool-transactions" "GET" (Some params) None.

(** A call of one of the endpoint methods, with its arguments. *)
Inductive endpoint : Type :=
  | LatestBlock
  | TrendingTokens (order_by : option string) (limit : option Z)
  | Tokens (limit offset : option Z)
  | TokenDetails (token_address : string)
  | CurrentPrice (token_address : string)
  | MultiplePrices (token_addresses : list string)
  | PriceHistory (token_address : string) (hours_back : option Z)
  | Ohlcv (token_address : string) (timeframe : option string) (limit : option Z)
  | HolderBalances (holder_address : string) (limit : option Z)
  | WalletHistory (wallet_address : string) (after_time : option string)
  | TradeStatistics (token_addresses : list string) (timeframe : option string)
  | TokenTransactions (token_address : string) (limit : option Z)
  | TradersLeaderboard (token_address : string) (limit : option Z)
  | TokenPoolSearch (token_address : string) (limit : option Z)
  | PoolDetails (pool_address : string)
  | PoolFeeMetrics (pool_address : string) (timeframe_days : option Z)
  | PoolTransactions (pool_address : string) (limit : option Z).

Definition invoke (self : CambrianAPI) (net : network) (e : endpoint)
    : list http_call * raises value :=
  match e with
  | LatestBlock => get_latest_block self net
  | TrendingTokens order_by limit => get_trending_tokens self net order_by limit
  | Tokens limit offset => get_tokens self net limit offset
  | TokenDetails a => get_token_details self net a
  | CurrentPrice a => get_current_price self net a
  | MultiplePrices l => get_multiple_prices self net l
  | PriceHistory a h => get_price_history self net a h
  | Ohlcv a t l => get_ohlcv self net a t l
  | HolderBalances a l => get_holder_balances self net a l
  | WalletHistory a t => get_wallet_history self net a t
  | TradeStatistics l t => get_trade_statistics self net l t
  | TokenTransactions a l => get_token_transactions self net a l
  | TradersLeaderboard a l => get_traders_leaderboard self net a l
  | TokenPoolSearch a l => search_token_pools self net a l
  | PoolDetails a => get_pool_details self net a
  | PoolFeeMetrics a d => get_pool_fee_metrics self net a d
  | PoolTransactions a l => get_pool_transactions self net a l
  end.

(** A client and two remote sides to try the methods on: one that never
    replies, and one that knows [solana/tokens] only. *)
Definition example_client : CambrianAPI :=
  {| api_key := "key"; base_url := "https://h/api";
     session := [("X-API-KEY", "key")] |}.

Definition network_down : network := λ _, NoReply.

Definition network_tokens_only : network := λ call,
  if bool_decide (call_url call = "https://h/api/solana/tokens")
  then Reply 200 (Some (VList []))
  else Reply 404 None.

(** ** Facts about insertion-ordered dictionaries *)

Section pydict_facts.
Context {V : Type}.
Implicit Types (d : PyDict.t V) (k : string) (v : V).

Lemma get_setitem_eq d k v : PyDict.get k (PyDict.setitem k v d) = Some v.
Proof.
  induction d as [|[k' v'] d IH]; simpl.
  - by rewrite decide_True.
  - destruct (decide (k' = k)) as [->|Hne]; simpl.
    + by rewrite decide_True.
    + by rewrite decide_False.
Qed.

Lemma get_setitem_ne d k k' v :
  k ≠ k' → PyDict.get k' (PyDict.setitem k v d) = PyDict.get k' d.
Proof.
  intros Hne. induction d as [|[k0 v0] d IH]; simpl.
  - by rewrite decide_False.
  - destruct (decide (k0 = k)) as [->|Hk0]; simpl.
    + by rewrite !decide_False.
    + destruct (decide (k0 = k')); [done | apply IH].
Qed.

Lemma get_None_keys d k : PyDict.get k d = None ↔ k ∉ PyDict.keys d.
Proof.
  unfold PyDict.keys. induction d as [|[k' v'] d IH]; simpl.
  - split; [intros _; apply not_elem_of_nil | done].
  - rewrite not_elem_of_cons. destruct (decide (k' = k)) as [->|Hne].
    + split; [done | intros [? _]; done].
    + rewrite IH. split; [intros ?; split; [congruence | done] | by intros [_ ?]].
Qed.

Lemma setitem_fresh d k v :
  k ∉ PyDict.keys d → PyDict.setitem k v d = d ++ [(k, v)].
Proof.
  unfold PyDict.keys. induction d as [|[k' v'] d IH]; simpl; [done |].
  rewrite not_elem_of_cons. intros [Hne Hnin].
  rewrite decide_False by congruence. by rewrite IH.
Qed.

Lemma length_setitem_le d k v :
  length (PyDict.setitem k v d) ≤ S (length d).
Proof.
  induction d as [|[k' v'] d IH]; simpl; [lia |].
  destruct (decide (k' = k)); simpl; lia.
Qed.

Lemma elem_of_setitem d k v kv :
  kv ∈ PyDict.setitem k v d → kv = (k, v) ∨ kv ∈ d.
Proof.
  induction d as [|[k' v'] d IH]; simpl.
  - rewrite list_elem_of_singleton. by left.
  - destruct (decide (k' = k)) as [->|Hne]; rewrite !elem_of_cons.
    + intros [->|?]; [by left | by right; right].
    + intros [->|H]; [by right; left |].
      destruct (IH H); [by left | by right; right].
Qed.

Lemma assign_all_fresh kvs d :
  NoDup (kvs.*1) → (∀ k, k ∈ kvs.*1 → k ∉ PyDict.keys d) →
  assign_all kvs d = d ++ kvs.
Proof.
  unfold assign_all. revert d.
  induction kvs as [|[k v] kvs IH]; intros d Hnd Hfresh; simpl.
  - by rewrite app_nil_r.
  - simpl in Hnd. apply NoDup_cons in Hnd as [Hk Hnd].
    rewrite setitem_fresh by (apply Hfresh; simpl; apply list_elem_of_here).
    rewrite IH; [by rewrite <- app_assoc | done |].
    intros k' Hk'. unfold PyDict.keys. rewrite fmap_app. simpl.
    rewrite elem_of_app, list_elem_of_singleton. intros [Hin | ->]; [|done].
    eapply Hfresh; [|exact Hin]. simpl. by apply list_elem_of_further.
Qed.

Lemma length_assign_all_le kvs d :
  length (assign_all kvs d) ≤ length d + length kvs.
Proof.
  unfold assign_all. revert d. induction kvs as [|[k v] kvs IH]; intros d; simpl.
  - lia.
  - specialize (IH (PyDict.setitem k v d)).
    pose proof (length_setitem_le d k v). lia.
Qed.

Lemma elem_of_assign_all kvs d kv :
  kv ∈ assign_all kvs d → kv ∈ kvs ∨ kv ∈ d.
Proof.
  unfold assign_all. revert d. induction kvs as [|[k v] kvs IH]; intros d; simpl.
  - by right.
  - intros H. destruct (IH _ H) as [?|H'].
    + left. by apply list_elem_of_further.
    + destruct (elem_of_setitem _ _ _ _ H') as [->|?]; [left | by right].
      apply list_elem_of_here.
Qed.

(** The last assignment to a key decides the value read back. *)
Lemma get_assign_all_last kvs d j k v :
  kvs !! j = Some (k, v) →
  (∀ j' kv', j < j' → kvs !! j' = Some kv' → kv'.1 ≠ k) →
  PyDict.get k (assign_all kvs d) = Some v.
Proof.
  unfold assign_all. revert d j.
  induction kvs as [|[k0 v0] kvs IH]; intros d j Hj Hlast; [done |].
  simpl. destruct j as [|j]; simpl in Hj.
  - injection Hj as -> ->. clear IH.
    assert (Hnone : ∀ kv', kv' ∈ kvs → kv'.1 ≠ k).
    { intros kv' [j' Hj']%list_elem_of_lookup.
      apply (Hlast (S j') kv'); [lia | done]. }
    clear Hlast. generalize (get_setitem_eq d k v).
    generalize (PyDict.setitem k v d). intros d'. revert d'.
    induction kvs as [|[k1 v1] kvs IH]; intros d' Hd'; simpl; [done |].
    apply IH.
    + intros kv' Hin. apply Hnone. by apply list_elem_of_further.
    + rewrite get_setitem_ne; [done |].
      apply (Hnone (k1, v1)). apply list_elem_of_here.
  - apply (IH _ j); [done |].
    intros j' kv' Hlt Hj'. apply (Hlast (S j') kv'); [lia | done].
Qed.

End pydict_facts.

(** ** The loops of [parse_response] *)

Lemma bind_Return {A B} (f : A → raises B) (a : A) : (Return a ≫= f) = f a.
Proof. reflexivity. Qed.

Lemma for_columns_named cols names :
  column_names cols names →
  ∀ i r d, for_columns i cols r d = Return (assign_all (zip names (drop i r)) d).
Proof.
  induction 1 as [|c n cols names Hc _ IH]; intros i r d; simpl.
  - reflexivity.
  - unfold getitem. rewrite Hc, bind_Return.
    destruct (r !! i) as [v|] eqn:Hi.
    + rewrite bool_decide_eq_true_2 by (by eapply lookup_lt_Some).
      unfold index. rewrite Hi, !bind_Return, IH.
      by rewrite (drop_S _ _ _ Hi).
    + apply lookup_ge_None in Hi.
      rewrite bool_decide_eq_false_2 by lia.
      rewrite bind_Return, IH, !drop_ge by lia.
      by destruct names.
Qed.

Lemma for_columns_record cols names r :
  column_names cols names →
  for_columns 0 cols r PyDict.empty = Return (zip_record names r).
Proof. intros H. by rewrite (for_columns_named _ _ H). Qed.

Lemma for_rows_named cols names rows parsed :
  column_names cols names →
  for_rows cols rows parsed = Return (parsed ++ (zip_record names <$> rows)).
Proof.
  intros H. revert parsed. induction rows as [|r rows IH]; intros parsed; simpl.
  - by rewrite app_nil_r.
  - rewrite (for_columns_record _ _ _ H), bind_Return, IH.
    by rewrite <- app_assoc.
Qed.

(** Without columns every row gives the empty record. *)
Lemma for_rows_no_columns rows parsed :
  for_rows [] rows parsed = Return (parsed ++ replicate (length rows) PyDict.empty).
Proof.
  revert parsed. induction rows as [|r rows IH]; intros parsed; simpl.
  - by rewrite app_nil_r.
  - rewrite IH. by rewrite <- app_assoc.
Qed.

(** A descriptor without ['name'] stops the first row with a [KeyError],
    also at a position the row does not reach. *)
Lemma for_columns_unnamed cols1 c cols2 names1 i r d :
  column_names cols1 names1 → c !! "name" = None →
  for_columns i (cols1 ++ c :: cols2) r d = Raise (KeyError "name").
Proof.
  intros H Hc. revert i d.
  induction H as [|c1 n1 cols1 names1 Hc1 _ IH]; intros i d; simpl.
  - unfold getitem. by rewrite Hc.
  - unfold getitem. rewrite Hc1, bind_Return.
    destruct (r !! i) as [v|] eqn:Hi.
    + rewrite bool_decide_eq_true_2 by (by eapply lookup_lt_Some).
      unfold index. rewrite Hi, !bind_Return. apply IH.
    + apply lookup_ge_None in Hi.
      rewrite bool_decide_eq_false_2 by lia.
      rewrite bind_Return. apply IH.
Qed.

Lemma get_zip_record names r n :
  PyDict.get n (zip_record names r) = last_aligned names r n.
Proof.
  unfold zip_record, PyDict.empty.
  assert (G : ∀ d : pydict, PyDict.get n (assign_all (zip names r) d) =
    match last_aligned names r n with Some w => Some w | None => PyDict.get n d end).
  { revert r. induction names as [|n' names IH]; intros r d; [done |].
    destruct r as [|v r]; [done |]. simpl. unfold assign_all in *. simpl.
    rewrite IH. destruct (last_aligned names r n); [done |].
    destruct (decide (n' = n)) as [->|Hne].
    - apply get_setitem_eq.
    - by apply get_setitem_ne. }
  rewrite G. by destruct (last_aligned names r n).
Qed.

Lemma zip_record_NoDup names r :
  NoDup names → zip_record names r = zip names r.
Proof.
  intros Hnd. unfold zip_record, PyDict.empty.
  rewrite assign_all_fresh; [done | |].
  - revert r. induction Hnd as [|n names Hn Hnd IH]; intros r; [constructor |].
    destruct r as [|v r]; simpl; [constructor |].
    constructor; [|apply IH].
    intros Hin. apply Hn. apply list_elem_of_fmap in Hin as [[n0 v0] [-> Hin]].
    simpl. by apply elem_of_zip_l in Hin.
  - intros k _. apply not_elem_of_nil.
Qed.

Lemma length_zip_record_le names r : length (zip_record names r) ≤ length names.
Proof.
  unfold zip_record.
  pose proof (length_assign_all_le (zip names r) (@PyDict.empty value)) as H.
  rewrite length_zip_with in H. simpl in H. lia.
Qed.

(** ** [parse_response] on a block whose descriptors all have a name *)

Lemma parse_response_named blk rest names :
  column_names (get_or (columns blk) []) names →
  parse_response (Some (blk :: rest)) =
    Return (zip_record names <$> get_or (data blk) []).
Proof. intros H. simpl. by rewrite (for_rows_named _ _ _ _ H). Qed.

Lemma parse_response_row blk rest cols names rows j r :
  columns blk = Some cols → column_names cols names →
  data blk = Some rows → rows !! j = Some r →
  ∃ out, parse_response (Some (blk :: rest)) = Return out ∧
         out !! j = Some (zip_record names r).
Proof.
  intros Hc Hn Hd Hj. eexists. split.
  - apply parse_response_named. rewrite Hc. exact Hn.
  - rewrite Hd. simpl. by rewrite list_lookup_fmap, Hj.
Qed.

(** A descriptor without ['name'] makes the normaliser raise as soon as
    there is a row. *)
Lemma parse_response_unnamed blk rest cols1 c cols2 names1 r rows :
  columns blk = Some (cols1 ++ c :: cols2) → column_names cols1 names1 →
  c !! "name" = None → data blk = Some (r :: rows) →
  parse_response (Some (blk :: rest)) = Raise (KeyError "name").
Proof.
  intros Hc Hn Hcn Hd. simpl. rewrite Hc, Hd. simpl.
  by rewrite (for_columns_unnamed _ _ _ _ _ _ _ Hn Hcn).
Qed.

Lemma keys_zip_record_NoDup names r :
  NoDup names → PyDict.keys (zip_record names r) = take (length r) names.
Proof.
  intros Hnd. rewrite zip_record_NoDup by done. unfold PyDict.keys.
  rewrite <- (zip_with_take_l _ names r).
  apply fst_zip. rewrite length_take. lia.
Qed.

(** The value of the last column of a name that the row reaches. *)
Lemma get_zip_record_last names r i n v :
  names !! i = Some n → r !! i = Some v →
  (∀ i', i < i' → i' < length r → names !! i' ≠ Some n) →
  PyDict.get n (zip_record names r) = Some v.
Proof.
  intros Hn Hv Hlast. unfold zip_record.
  apply (get_assign_all_last _ _ i).
  - apply lookup_zip_with_Some. by exists n, v.
  - intros i' [n' v'] Hlt [n0 [v0 [[= -> ->] [Hn0 Hv0]]]]%lookup_zip_with_Some.
    simpl. intros ->. eapply Hlast; [exact Hlt | by eapply lookup_lt_Some | done].
Qed.

Lemma get_zip_record_NoDup names r i n v :
  NoDup names → names !! i = Some n → r !! i = Some v →
  PyDict.get n (zip_record names r) = Some v.
Proof.
  intros Hnd Hn Hv. apply (get_zip_record_last _ _ i); [done | done |].
  intros i' Hlt _ Hn'. pose proof (NoDup_lookup _ _ _ _ Hnd Hn Hn'). lia.
Qed.

Lemma elem_of_zip_record names r n v :
  (n, v) ∈ zip_record names r →
  ∃ i, i < length names ∧ names !! i = Some n ∧ r !! i = Some v.
Proof.
  unfold zip_record. intros [Hin|Hin]%elem_of_assign_all.
  - apply list_elem_of_lookup in Hin as [i Hi].
    apply lookup_zip_with_Some in Hi as [n0 [v0 [[= -> ->] [Hn Hv]]]].
    exists i. split; [by eapply lookup_lt_Some | done].
  - by apply not_elem_of_nil in Hin.
Qed.

(** ** The normaliser: properties of the specification *)

Example parse_example : parse_response example_response = Return example_records.
Proof. vm_compute. reflexivity. Qed.

(** Claim C4. For a non-empty response, [parse_response] consults the
    first result-block only: whatever blocks follow, the outcome is the
    one of the response made of the first block alone, so that nothing
    from a later block reaches the output. *)
Theorem parse_response_first_block_only (blk : result_block)
    (rest : list result_block) :
  parse_response (Some (blk :: rest)) = parse_response (Some [blk]).
Proof. reflexivity. Qed.

(** Claim C5. A missing ([None]) and an empty response array give the
    empty record sequence, and so does a response whose first block has
    an empty [data] sequence, whatever its columns are. *)
Theorem parse_response_empty :
  parse_response None = Return [] ∧
  parse_response (Some []) = Return [] ∧
  ∀ (cols : option (list col_info)) (rest : list result_block),
    parse_response (Some ({| columns := cols; data := Some [] |} :: rest))
    = Return [].
Proof. repeat split. Qed.

(** Claim C10. A first block without ['data'] is read as one without
    rows and gives the empty output; a first block without ['columns'] is
    read as one without columns and gives one empty record per row.
    Neither raises. *)
Theorem parse_response_missing_keys :
  (∀ (cols : option (list col_info)) (rest : list result_block),
     parse_response (Some ({| columns := cols; data := None |} :: rest))
     = Return []) ∧
  (∀ (rows : list row) (rest : list result_block),
     parse_response (Some ({| columns := None; data := Some rows |} :: rest))
     = Return (replicate (length rows) PyDict.empty)).
Proof.
  split; [reflexivity |].
  intros rows rest. simpl. by rewrite for_rows_no_columns.
Qed.

(** Claim C6. For a non-empty columnar response, the output has exactly
    one record per row of the first block's [data], in the order of the
    rows: it is as long as [data], and its record at each position is the
    one the column loop builds from the row at that position, whose keys
    read the values of that row. *)
Theorem parse_response_one_record_per_row (blk : result_block)
    (rest : list result_block) (names : list string) :
  column_names (get_or (columns blk) []) names →
  ∃ out : list pydict,
    parse_response (Some (blk :: rest)) = Return out ∧
    length out = length (get_or (data blk) []) ∧
    Forall2 (λ r rec,
               for_columns 0 (get_or (columns blk) []) r PyDict.empty = Return rec ∧
               ∀ n, PyDict.get n rec = last_aligned names r n)
            (get_or (data blk) []) out.
Proof.
  intros H. eexists. split; [by apply parse_response_named |].
  split; [by rewrite length_fmap |].
  apply Forall2_fmap_r, Forall_Forall2_diag, Forall_forall.
  intros r _. split; [by apply for_columns_record | apply get_zip_record].
Qed.

Lemma parse_response_one_record_per_row_witness :
  ∃ out : list pydict,
    parse_response example_response = Return out ∧
    length out = 2 ∧
    Forall2 (λ r rec,
               for_columns 0 example_columns r PyDict.empty = Return rec ∧
               ∀ n, PyDict.get n rec = last_aligned ["symbol"; "price"] r n)
            example_rows out.
Proof.
  apply (parse_response_one_record_per_row
           example_block
           [] ["symbol"; "price"]).
  simpl. repeat constructor.
Defined.

(** Claim C1, as stated, fails when two descriptors bear the same name:
    two columns named [a] and a row of length two give a record with one
    key, not two. *)
Lemma parse_response_full_row_duplicate_names :
  let cols : list col_info := [ {["name" := "a"]}; {["name" := "a"]} ] in
  let r : row := [VInt 1; VInt 2] in
  length cols = 2 ∧ length r = 2 ∧
  parse_response (Some [ {| columns := Some cols; data := Some [r] |} ])
    = Return [ [("a", VInt 2)] ] ∧
  PyDict.len [("a", VInt 2)] ≠ 2 ∧
  PyDict.keys [("a", VInt 2)] ≠ ["a"; "a"].
Proof. vm_compute. repeat split; discriminate. Qed.

(** Claim C1 (amended). When the first result-block has N column
    descriptors with pairwise distinct names and its data has a row of
    length exactly N, the record of that row has exactly N keys, equal to
    the column names in their listed order, and the name of the i-th
    descriptor maps to the i-th value of the row. *)
Theorem parse_response_full_row (blk : result_block) (rest : list result_block)
    (cols : list col_info) (names : list string) (rows : list row)
    (j : nat) (r : row) :
  columns blk = Some cols → column_names cols names → NoDup names →
  data blk = Some rows → rows !! j = Some r →
  length r = length cols →
  ∃ (out : list pydict) (rec : pydict),
    parse_response (Some (blk :: rest)) = Return out ∧
    out !! j = Some rec ∧
    PyDict.len rec = length cols ∧
    PyDict.keys rec = names ∧
    ∀ i c n v, cols !! i = Some c → c !! "name" = Some n → r !! i = Some v →
               PyDict.get n rec = Some v.
Proof.
  intros Hc Hn Hnd Hd Hj Hlen.
  destruct (parse_response_row _ rest _ _ _ _ _ Hc Hn Hd Hj) as [out [Hout Hrec]].
  exists out, (zip_record names r). split; [done |]. split; [done |].
  pose proof (Forall2_length _ _ _ Hn) as Hlen'.
  assert (Hkeys : PyDict.keys (zip_record names r) = names).
  { rewrite keys_zip_record_NoDup by done. apply take_ge. lia. }
  split; [|split; [done |]].
  - unfold PyDict.len. rewrite <- (length_fmap fst).
    fold (PyDict.keys (zip_record names r)). rewrite Hkeys. lia.
  - intros i c n v Hi Hcn Hv.
    destruct (Forall2_lookup_l _ _ _ _ _ Hn Hi) as [n' [Hn' Hcn']].
    simpl in Hcn'. assert (n' = n) as -> by congruence.
    by apply (get_zip_record_NoDup _ _ i).
Qed.

Lemma parse_response_full_row_witness :
  ∃ (out : list pydict) (rec : pydict),
    parse_response example_response = Return out ∧
    out !! 0 = Some rec ∧
    PyDict.len rec = 2 ∧
    PyDict.keys rec = ["symbol"; "price"] ∧
    ∀ i c n v,
      example_columns !! i = Some c →
      c !! "name" = Some n → [VStr "SOL"; VFloat 150.2] !! i = Some v →
      PyDict.get n rec = Some v.
Proof.
  apply (parse_response_full_row
           example_block
           [] example_columns ["symbol"; "price"] example_rows 0
           [VStr "SOL"; VFloat 150.2]).
  - reflexivity.
  - repeat constructor.
  - repeat constructor; rewrite ?elem_of_cons; intros H;
      repeat (destruct H as [H|H]; [discriminate H |]); by apply not_elem_of_nil in H.
  - reflexivity.
  - reflexivity.
  - reflexivity.
Defined.

(** Claim C2, as stated, fails when a column that the row does not reach
    bears the name of one that it does: two columns named [a] and a row
    of length one give a record in which the name of column 1 is
    present. *)
Lemma parse_response_short_row_duplicate_names :
  let cols : list col_info := [ {["name" := "a"]}; {["name" := "a"]} ] in
  let r : row := [VInt 1] in
  length r < length cols ∧
  parse_response (Some [ {| columns := Some cols; data := Some [r] |} ])
    = Return [ [("a", VInt 1)] ] ∧
  cols !! 1 = Some {["name" := "a"]} ∧
  PyDict.get "a" [("a", VInt 1)] = Some (VInt 1) ∧
  "a" ∈ PyDict.keys [("a", VInt 1)].
Proof.
  simpl. split; [lia |]. split; [by vm_compute |]. split; [done |].
  split; [by vm_compute |]. vm_compute. apply list_elem_of_here.
Qed.

(** Claim C2 (amended). Take a first result-block with N column
    descriptors and a data row of length k < N, where the names of the
    first k columns are pairwise distinct and none of them is the name of
    a column from k to N-1. The record of that row has exactly the names
    of the first k columns as keys, in order, each mapped to the value of
    the row at its position; the names of columns k to N-1 are absent
    from the record. The worked example of the specification holds. *)
Theorem parse_response_short_row :
  (∀ (blk : result_block) (rest : list result_block) (cols : list col_info)
     (names : list string) (rows : list row) (j : nat) (r : row),
     columns blk = Some cols → column_names cols names →
     data blk = Some rows → rows !! j = Some r →
     length r < length cols →
     NoDup (take (length r) names) →
     (∀ i n, length r ≤ i → names !! i = Some n → n ∉ take (length r) names) →
     ∃ (out : list pydict) (rec : pydict),
       parse_response (Some (blk :: rest)) = Return out ∧
       out !! j = Some rec ∧
       PyDict.keys rec = take (length r) names ∧
       (∀ i c n v, cols !! i = Some c → c !! "name" = Some n →
                   r !! i = Some v → PyDict.get n rec = Some v) ∧
       (∀ i c n, length r ≤ i → cols !! i = Some c → c !! "name" = Some n →
                 PyDict.get n rec = None ∧ n ∉ PyDict.keys rec)) ∧
  parse_response example_response = Return example_records.
Proof.
  split; [|apply parse_example].
  intros blk rest cols names rows j r Hc Hn Hd Hj Hlen Hnd Hlater.
  destruct (parse_response_row _ rest _ _ _ _ _ Hc Hn Hd Hj) as [out [Hout Hrec]].
  exists out, (zip_record names r). split; [done |]. split; [done |].
  assert (Hcut : zip_record names r = zip_record (take (length r) names) r).
  { unfold zip_record. by rewrite zip_with_take_l. }
  assert (Hkeys : PyDict.keys (zip_record names r) = take (length r) names).
  { rewrite Hcut, keys_zip_record_NoDup by done. rewrite take_take. f_equal. lia. }
  assert (Hname : ∀ i c n, cols !! i = Some c → c !! "name" = Some n →
                           names !! i = Some n).
  { intros i c n Hi Hcn.
    destruct (Forall2_lookup_l _ _ _ _ _ Hn Hi) as [n' [Hn' Hcn']].
    simpl in Hcn'. congruence. }
  split; [done |]. split.
  - intros i c n v Hi Hcn Hv. rewrite Hcut.
    apply (get_zip_record_NoDup _ _ i); [done | | done].
    rewrite lookup_take_lt by (by eapply lookup_lt_Some). eauto.
  - intros i c n Hge Hi Hcn.
    assert (Habs : n ∉ PyDict.keys (zip_record names r)).
    { rewrite Hkeys. eauto. }
    split; [by apply get_None_keys | done].
Qed.

Lemma parse_response_short_row_witness :
  ∃ (out : list pydict) (rec : pydict),
    parse_response example_response = Return out ∧
    out !! 1 = Some rec ∧
    PyDict.keys rec = ["symbol"] ∧
    (∀ i c n v,
       example_columns !! i = Some c →
       c !! "name" = Some n → [VStr "BTC"] !! i = Some v →
       PyDict.get n rec = Some v) ∧
    (∀ i c n, 1 ≤ i →
       example_columns !! i = Some c →
       c !! "name" = Some n →
       PyDict.get n rec = None ∧ n ∉ PyDict.keys rec).
Proof.
  apply (proj1 parse_response_short_row
           example_block
           [] example_columns ["symbol"; "price"] example_rows 1
           [VStr "BTC"]).
  - reflexivity.
  - repeat constructor.
  - reflexivity.
  - reflexivity.
  - simpl. lia.
  - simpl. repeat constructor. apply not_elem_of_nil.
  - simpl. intros [|[|i]] n Hi Hn; [lia | | done].
    injection Hn as <-. rewrite list_elem_of_singleton. discriminate.
Defined.

(** Claim C3, as stated, fails for a pair of same-named columns that a
    third of that name follows within the row, and for a row that does
    not reach the later column. Three columns named [a] and the row
    [1, 2, 3]: columns 0 and 1 share the name, the value under the later
    one is 2, and the record holds 3. Two columns named [a] and the row
    [1]: no value is under the later column and the record keeps the
    value of the earlier one. *)
Lemma parse_response_later_column_shadowed :
  let a : col_info := {["name" := "a"]} in
  ([a; a; a] !! 0 = Some a ∧ [a; a; a] !! 1 = Some a ∧
   [VInt 1; VInt 2; VInt 3] !! 1 = Some (VInt 2) ∧
   parse_response
     (Some [ {| columns := Some [a; a; a];
                data := Some [ [VInt 1; VInt 2; VInt 3] ] |} ])
     = Return [ [("a", VInt 3)] ] ∧
   PyDict.get "a" [("a", VInt 3)] ≠ Some (VInt 2)) ∧
  ([a; a] !! 0 = Some a ∧ [a; a] !! 1 = Some a ∧
   [VInt 1] !! 1 = None ∧
   parse_response
     (Some [ {| columns := Some [a; a]; data := Some [ [VInt 1] ] |} ])
     = Return [ [("a", VInt 1)] ] ∧
   PyDict.get "a" [("a", VInt 1)] = [VInt 1] !! 0).
Proof. vm_compute. repeat split; discriminate. Qed.

(** Claim C3 (amended). When two column descriptors bear the same name,
    the row has a value under the later one, and no further column of
    that name lies within the row, the value under the later descriptor
    is the one the record of the row holds for the name: it overwrites
    the value of the earlier column. *)
Theorem parse_response_later_column_wins (blk : result_block)
    (rest : list result_block) (cols : list col_info) (names : list string)
    (rows : list row) (j : nat) (r : row) (i1 i2 : nat) (c1 c2 : col_info)
    (n : string) (v1 v2 : value) :
  columns blk = Some cols → column_names cols names →
  data blk = Some rows → rows !! j = Some r →
  i1 < i2 →
  cols !! i1 = Some c1 → c1 !! "name" = Some n → r !! i1 = Some v1 →
  cols !! i2 = Some c2 → c2 !! "name" = Some n → r !! i2 = Some v2 →
  (∀ i3 c3, i2 < i3 → i3 < length r → cols !! i3 = Some c3 →
            c3 !! "name" ≠ Some n) →
  ∃ (out : list pydict) (rec : pydict),
    parse_response (Some (blk :: rest)) = Return out ∧
    out !! j = Some rec ∧
    PyDict.get n rec = Some v2.
Proof.
  intros Hc Hn Hd Hj _ _ _ _ Hi2 Hc2 Hv2 Hlast.
  destruct (parse_response_row _ rest _ _ _ _ _ Hc Hn Hd Hj) as [out [Hout Hrec]].
  exists out, (zip_record names r). split; [done |]. split; [done |].
  destruct (Forall2_lookup_l _ _ _ _ _ Hn Hi2) as [n2 [Hn2 Hcn2]].
  simpl in Hcn2. assert (n2 = n) as -> by congruence.
  apply (get_zip_record_last _ _ i2); [done | done |].
  intros i3 Hlt Hlen Hn3.
  destruct (Forall2_lookup_r _ _ _ _ _ Hn Hn3) as [c3 [Hc3 Hcn3]].
  by apply (Hlast i3 c3).
Qed.

Lemma parse_response_later_column_wins_witness :
  ∃ (out : list pydict) (rec : pydict),
    parse_response
      (Some [ {| columns := Some duplicate_columns;
                 data := Some [ [VInt 1; VInt 2; VInt 3] ] |} ]) = Return out ∧
    out !! 0 = Some rec ∧
    PyDict.get "a" rec = Some (VInt 3).
Proof.
  apply (parse_response_later_column_wins
           {| columns := Some duplicate_columns;
              data := Some [ [VInt 1; VInt 2; VInt 3] ] |}
           [] duplicate_columns ["a"; "b"; "a"] [ [VInt 1; VInt 2; VInt 3] ] 0
           [VInt 1; VInt 2; VInt 3] 0 2 {["name" := "a"]} {["name" := "a"]}
           "a" (VInt 1) (VInt 3)).
  - reflexivity.
  - repeat constructor.
  - reflexivity.
  - reflexivity.
  - lia.
  - reflexivity.
  - reflexivity.
  - reflexivity.
  - reflexivity.
  - reflexivity.
  - reflexivity.
  - simpl. intros i3 c3 H1 H2. lia.
Defined.

(** Claim C9. A row longer than the column list loses its values from
    position N on, silently: its record is the one of the row cut to N
    values, every entry of the record is a column name with the value of
    the row at that column's position, and every record of the output has
    at most N keys. *)
Theorem parse_response_long_row (blk : result_block) (rest : list result_block)
    (cols : list col_info) (names : list string) (rows : list row)
    (j : nat) (r : row) :
  columns blk = Some cols → column_names cols names →
  data blk = Some rows → rows !! j = Some r →
  length cols < length r →
  ∃ (out : list pydict) (rec : pydict),
    parse_response (Some (blk :: rest)) = Return out ∧
    out !! j = Some rec ∧
    Forall (λ rec', PyDict.len rec' ≤ length cols) out ∧
    (∀ n v, (n, v) ∈ rec →
            ∃ i c, cols !! i = Some c ∧ c !! "name" = Some n ∧ r !! i = Some v) ∧
    for_columns 0 cols (take (length cols) r) PyDict.empty = Return rec.
Proof.
  intros Hc Hn Hd Hj Hlen.
  exists (zip_record names <$> rows), (zip_record names r).
  pose proof (Forall2_length _ _ _ Hn) as Hlen'.
  split; [|split; [|split; [|split]]].
  - rewrite (parse_response_named _ _ names).
    + by rewrite Hd.
    + by rewrite Hc.
  - by rewrite list_lookup_fmap, Hj.
  - apply Forall_fmap, Forall_forall. intros r' _. simpl.
    unfold PyDict.len. rewrite Hlen'. apply length_zip_record_le.
  - intros n v [i [Hlt [Hi Hv]]]%elem_of_zip_record.
    destruct (Forall2_lookup_r _ _ _ _ _ Hn Hi) as [c [Hci Hcn]].
    by exists i, c.
  - rewrite (for_columns_record _ _ _ Hn). unfold zip_record.
    by rewrite Hlen', zip_with_take_r.
Qed.

Lemma parse_response_long_row_witness :
  ∃ (out : list pydict) (rec : pydict),
    parse_response
      (Some [ {| columns := Some example_columns;
                 data := Some [ [VStr "SOL"; VFloat 150.2; VInt 7] ] |} ])
      = Return out ∧
    out !! 0 = Some rec ∧
    Forall (λ rec', PyDict.len rec' ≤ 2) out ∧
    (∀ n v, (n, v) ∈ rec →
            ∃ i c, example_columns !! i = Some c ∧ c !! "name" = Some n ∧
                   [VStr "SOL"; VFloat 150.2; VInt 7] !! i = Some v) ∧
    for_columns 0 example_columns [VStr "SOL"; VFloat 150.2] PyDict.empty
      = Return rec.
Proof.
  apply (parse_response_long_row
           {| columns := Some example_columns;
              data := Some [ [VStr "SOL"; VFloat 150.2; VInt 7] ] |}
           [] example_columns ["symbol"; "price"]
           [ [VStr "SOL"; VFloat 150.2; VInt 7] ] 0
           [VStr "SOL"; VFloat 150.2; VInt 7]).
  - reflexivity.
  - repeat constructor.
  - reflexivity.
  - reflexivity.
  - simpl. lia.
Defined.

(** ** Stripping slashes *)

Lemma lstrip_no_leading_slash (s : string) :
  starts_with_slash s = false → lstrip "/" s = s.
Proof. destruct s as [|a s]; [done |]. simpl. by intros ->. Qed.

Lemma rstrip_no_trailing_slash (s : string) :
  ends_with_slash s = false → rstrip "/" s = s.
Proof.
  induction s as [|a s IH]; [done |]. simpl.
  destruct s as [|b s].
  - simpl. by intros ->.
  - intros H. by rewrite (IH H).
Qed.

Lemma lstrip_starts_with_slash (s : string) :
  starts_with_slash (lstrip "/" s) = false.
Proof.
  induction s as [|a s IH]; [done |]. simpl.
  destruct (char_in a "/") eqn:Ha; [done | by simpl].
Qed.

Lemma rstrip_ends_with_slash (s : string) :
  ends_with_slash (rstrip "/" s) = false.
Proof.
  induction s as [|a s IH]; [done |]. simpl.
  destruct (rstrip "/" s) as [|b t] eqn:Hs.
  - destruct (char_in a "/") eqn:Ha; [done | by simpl].
  - done.
Qed.

Example rstrip_base : rstrip "/" "https://h/api//" = "https://h/api".
Proof. reflexivity. Qed.

Example lstrip_path : lstrip "/" "//solana/tokens/" = "solana/tokens/".
Proof. reflexivity. Qed.

Example upper_method : upper "Post" = "POST".
Proof. reflexivity. Qed.

(** ** The constructor and the request builder: properties of the
    specification *)

(** Claim C7, as stated, fails when the environment variable is set to
    the empty string: it is set, and the constructor raises. *)
Lemma init_empty_environment_key :
  let env : environ := {["CAMBRIAN_API_KEY" := ""]} in
  is_Some (getenv env "CAMBRIAN_API_KEY") ∧
  __init__ env None None = Raise (ValueError api_key_required).
Proof. split; [by eexists | reflexivity]. Qed.

(** Claim C7 (amended). Constructing a client raises, and then a
    [ValueError], exactly when neither the explicit [api_key] argument
    nor the [CAMBRIAN_API_KEY] environment variable holds a non-empty
    string. It succeeds whenever one of the two is non-empty, with the
    key taken from the explicit argument when that is non-empty and from
    the environment otherwise. *)
Theorem init_api_key (env : environ) (key burl : option string) :
  (__init__ env key burl = Raise (ValueError api_key_required) ↔
     (∀ k, key = Some k → k = "") ∧
     (∀ k, getenv env "CAMBRIAN_API_KEY" = Some k → k = "")) ∧
  (∀ e, __init__ env key burl = Raise e → e = ValueError api_key_required) ∧
  (∀ k, key = Some k → k ≠ "" →
        ∃ self, __init__ env key burl = Return self ∧ api_key self = k) ∧
  (∀ k, (∀ k', key = Some k' → k' = "") →
        getenv env "CAMBRIAN_API_KEY" = Some k → k ≠ "" →
        ∃ self, __init__ env key burl = Return self ∧ api_key self = k).
Proof.
  unfold __init__, py_or.
  assert (Htruthy : ∀ s, truthy (Some s) = true ↔ s ≠ "").
  { intros s. simpl. case_bool_decide; naive_solver. }
  destruct (truthy key) eqn:Hkey.
  - destruct key as [k|]; [|done]. simpl in *.
    rewrite Hkey. simpl. apply Htruthy in Hkey.
    repeat split; try done.
    + intros [Hk _]. by specialize (Hk k eq_refl).
    + intros k' [= ->] _. by eexists.
    + intros k' Hk'. by specialize (Hk' k eq_refl).
  - assert (Hnokey : ∀ k, key = Some k → k = "").
    { intros k ->. destruct (decide (k = "")) as [|Hne]; [done |].
      apply Htruthy in Hne. congruence. }
    destruct (getenv env "CAMBRIAN_API_KEY") as [k|] eqn:Henv.
    + destruct (truthy (Some k)) eqn:Hk; simpl.
      * apply Htruthy in Hk. repeat split; try done.
        -- intros [_ Hk']. by specialize (Hk' k eq_refl).
        -- intros k' -> Hne. by specialize (Hnokey k' eq_refl).
        -- intros k' _ [= ->] _. by eexists.
      * assert (k = "") as ->.
        { destruct (decide (k = "")) as [|Hne]; [done |].
          apply Htruthy in Hne. congruence. }
        repeat split; try done.
        -- by intros k' [= ->].
        -- by intros e [= <-].
        -- intros k' -> Hne. by specialize (Hnokey k' eq_refl).
        -- by intros k' _ [= <-].
    + repeat split; try done.
      * by intros e [= <-].
      * intros k' -> Hne. by specialize (Hnokey k' eq_refl).
Qed.

Lemma init_api_key_witness :
  ∃ self,
    __init__ {["CAMBRIAN_API_KEY" := "from-env"]} (Some "") None = Return self ∧
    api_key self = "from-env".
Proof.
  apply (proj2 (proj2 (proj2
           (init_api_key {["CAMBRIAN_API_KEY" := "from-env"]} (Some "") None)))).
  - by intros k' [= <-].
  - reflexivity.
  - discriminate.
Defined.

Lemma init_base_url (env : environ) (key burl : option string) (self : CambrianAPI) :
  __init__ env key burl = Return self →
  base_url self = rstrip "/" (configured_base_url env burl).
Proof.
  unfold __init__. destruct (py_or key _) as [k|]; [|done].
  destruct (negb _); [done |]. by intros [= <-].
Qed.

Lemma make_request_calls (self : CambrianAPI) (net : network)
    (endpoint method : string) (params data : option pydict) (call : http_call) :
  call ∈ (_make_request self net endpoint method params data).1 →
  call_url call = base_url self +:+ "/" +:+ lstrip "/" endpoint.
Proof.
  unfold _make_request. repeat case_bool_decide; simpl.
  - by intros ->%list_elem_of_singleton.
  - by intros ->%list_elem_of_singleton.
  - by intros ?%not_elem_of_nil.
Qed.

(** Claim C8, as stated, fails for a path with a leading slash and for a
    base URL configured with a trailing slash: the slashes are stripped
    before the two are joined. *)
Lemma make_request_slashes_stripped :
  ∃ (self : CambrianAPI) (call : http_call),
    __init__ ∅ (Some "key") (Some "https://h/api/") = Return self ∧
    (_make_request self (λ _, NoReply) "/solana/latest-block" "GET" None None).1
      = [call] ∧
    call_url call = "https://h/api/solana/latest-block" ∧
    call_url call ≠ base_url self +:+ "/" +:+ "/solana/latest-block" ∧
    call_url call ≠ "https://h/api/" +:+ "/" +:+ "/solana/latest-block".
Proof.
  eexists _, _. split; [reflexivity |]. split; [reflexivity |].
  split; [by vm_compute |]. split; vm_compute; discriminate.
Qed.

(** Claim C8 (amended). Every HTTP call issued by [_make_request] targets
    the URL [b + "/" + p], where [b] is the configured base URL without
    its trailing slashes and [p] is the endpoint path without its leading
    slashes; a call is issued when the method is GET or POST in any
    letter case. For a path without a leading slash and a configured
    base URL without a trailing slash, that is the configured base URL,
    a slash, and the path. *)
Theorem make_request_url (env : environ) (key burl : option string)
    (self : CambrianAPI) (net : network) (endpoint method : string)
    (params data : option pydict) :
  __init__ env key burl = Return self →
  (∀ call, call ∈ (_make_request self net endpoint method params data).1 →
           call_url call =
             rstrip "/" (configured_base_url env burl) +:+ "/" +:+
             lstrip "/" endpoint) ∧
  (upper method = "GET" ∨ upper method = "POST" →
   ∃ call, (_make_request self net endpoint method params data).1 = [call]) ∧
  (starts_with_slash endpoint = false →
   ends_with_slash (configured_base_url env burl) = false →
   ∀ call, call ∈ (_make_request self net endpoint method params data).1 →
           call_url call = configured_base_url env burl +:+ "/" +:+ endpoint).
Proof.
  intros Hinit. pose proof (init_base_url _ _ _ _ Hinit) as Hbase.
  split; [|split].
  - intros call Hcall. rewrite <- Hbase. by eapply make_request_calls.
  - unfold _make_request. intros [Hm|Hm].
    + rewrite bool_decide_eq_true_2 by done. by eexists.
    + case_bool_decide; [by eexists |].
      rewrite bool_decide_eq_true_2 by done. by eexists.
  - intros Hlead Htrail call Hcall.
    rewrite (make_request_calls _ _ _ _ _ _ _ Hcall), Hbase.
    by rewrite lstrip_no_leading_slash, rstrip_no_trailing_slash.
Qed.

Lemma make_request_url_witness :
  ∃ self,
    __init__ ∅ (Some "key") None = Return self ∧
    ∀ call,
      call ∈ (_make_request self (λ _, NoReply) "solana/latest-block" "get"
                None None).1 →
      call_url call =
        "https://opabinia.cambrian.network/api/v1/solana/latest-block".
Proof.
  eexists. split; [reflexivity |].
  exact (proj2 (proj2
    (make_request_url ∅ (Some "key") None _ (λ _, NoReply)
       "solana/latest-block" "get" None None eq_refl)) eq_refl eq_refl).
Defined.

(** ** More on the normaliser *)





(** [parse_response] reads nothing of a descriptor but its ['name']: two
    column lists with the same names give the same outcome on the same
    data. *)
Theorem parse_response_names_only (cols cols' : list col_info)
    (names : list string) (d : option (list row))
    (rest rest' : list result_block) :
  column_names cols names → column_names cols' names →
  parse_response (Some ({| columns := Some cols; data := d |} :: rest)) =
  parse_response (Some ({| columns := Some cols'; data := d |} :: rest')).
Proof.
  intros H H'.
  by rewrite (parse_response_named _ _ names), (parse_response_named _ _ names).
Qed.

Lemma parse_response_names_only_witness :
  parse_response
    (Some [ {| columns := Some [ ({["name" := "symbol"; "type" := "String"]} : col_info) ];
               data := Some [ [VStr "SOL"] ] |} ]) =
  parse_response
    (Some [ {| columns := Some [ ({["name" := "symbol"]} : col_info) ];
               data := Some [ [VStr "SOL"] ] |} ]).
Proof.
  apply (parse_response_names_only _ _ ["symbol"]); repeat constructor.
Defined.

Section pydict_keys.
Context {V : Type}.
Implicit Types (d : PyDict.t V) (k : string) (v : V).

Lemma keys_setitem_elem_of d k k' v :
  k' ∈ PyDict.keys (PyDict.setitem k v d) ↔ k' = k ∨ k' ∈ PyDict.keys d.
Proof.
  unfold PyDict.keys. induction d as [|[k0 v0] d IH]; simpl.
  - rewrite list_elem_of_singleton. split; [by left | intros [?|H]; [done |]].
    by apply not_elem_of_nil in H.
  - destruct (decide (k0 = k)) as [->|Hne]; simpl; rewrite !elem_of_cons.
    + tauto.
    + rewrite IH. tauto.
Qed.

Lemma NoDup_keys_setitem d k v :
  NoDup (PyDict.keys d) → NoDup (PyDict.keys (PyDict.setitem k v d)).
Proof.
  induction d as [|[k0 v0] d IH]; simpl; intros Hnd.
  - apply NoDup_singleton.
  - apply NoDup_cons in Hnd as [Hk0 Hnd].
    destruct (decide (k0 = k)) as [->|Hne]; simpl.
    + by apply NoDup_cons.
    + apply NoDup_cons. split; [|by apply IH].
      fold (PyDict.keys (PyDict.setitem k v d)).
      rewrite keys_setitem_elem_of. intros [?|?]; [congruence | done].
Qed.

Lemma keys_assign_all_elem_of (kvs : list (string * V)) d k :
  k ∈ PyDict.keys (assign_all kvs d) ↔ k ∈ kvs.*1 ∨ k ∈ PyDict.keys d.
Proof.
  unfold assign_all. revert d. induction kvs as [|[k' v'] kvs IH]; intros d; simpl.
  - split; [by right | intros [H|?]; [by apply not_elem_of_nil in H | done]].
  - rewrite IH, keys_setitem_elem_of, elem_of_cons. tauto.
Qed.

Lemma NoDup_keys_assign_all (kvs : list (string * V)) d :
  NoDup (PyDict.keys d) → NoDup (PyDict.keys (assign_all kvs d)).
Proof.
  unfold assign_all. revert d. induction kvs as [|[k v] kvs IH]; intros d Hnd; simpl.
  - done.
  - by apply IH, NoDup_keys_setitem.
Qed.

(** Reading a dictionary finds an entry of it, and the only one of its
    key when the keys are pairwise distinct. *)
Lemma get_Some_NoDup d k v :
  NoDup (PyDict.keys d) → (PyDict.get k d = Some v ↔ (k, v) ∈ d).
Proof.
  induction d as [|[k0 v0] d IH]; simpl; intros Hnd.
  - split; [done | by intros ?%not_elem_of_nil].
  - apply NoDup_cons in Hnd as [Hk0 Hnd]. rewrite elem_of_cons.
    destruct (decide (k0 = k)) as [->|Hne].
    + split; [intros [= ->]; by left |].
      intros [[= ->]|Hin]; [done |]. destruct Hk0.
      apply list_elem_of_fmap. by exists (k, v).
    + rewrite (IH Hnd). split; [by right | intros [[= -> ->]|?]; done].
Qed.

End pydict_keys.

Lemma keys_zip_record_elem_of names r n :
  n ∈ PyDict.keys (zip_record names r) ↔ n ∈ take (length r) names.
Proof.
  unfold zip_record. rewrite keys_assign_all_elem_of.
  rewrite <- (zip_with_take_l _ names r), fst_zip by (rewrite length_take; lia).
  split; [intros [?|H]; [done | by apply not_elem_of_nil in H] | by left].
Qed.

(** Every record of the output is a well-formed dictionary: its keys are
    pairwise distinct, they are the names of the columns that the row
    reaches, and reading a key gives the one entry of that key. *)
Theorem parse_response_record_keys (blk : result_block) (rest : list result_block)
    (cols : list col_info) (names : list string) (rows : list row)
    (j : nat) (r : row) :
  columns blk = Some cols → column_names cols names →
  data blk = Some rows → rows !! j = Some r →
  ∃ (out : list pydict) (rec : pydict),
    parse_response (Some (blk :: rest)) = Return out ∧
    out !! j = Some rec ∧
    NoDup (PyDict.keys rec) ∧
    (∀ n, n ∈ PyDict.keys rec ↔ n ∈ take (length r) names) ∧
    (∀ n v, PyDict.get n rec = Some v ↔ (n, v) ∈ rec).
Proof.
  intros Hc Hn Hd Hj.
  destruct (parse_response_row _ rest _ _ _ _ _ Hc Hn Hd Hj) as [out [Hout Hrec]].
  exists out, (zip_record names r). split; [done |]. split; [done |].
  assert (Hnd : NoDup (PyDict.keys (zip_record names r))).
  { apply NoDup_keys_assign_all. constructor. }
  split; [done |]. split.
  - apply keys_zip_record_elem_of.
  - intros n v. by apply get_Some_NoDup.
Qed.

Lemma parse_response_record_keys_witness :
  ∃ (out : list pydict) (rec : pydict),
    parse_response
      (Some [ {| columns := Some duplicate_columns;
                 data := Some [ [VInt 1; VInt 2; VInt 3] ] |} ]) = Return out ∧
    out !! 0 = Some rec ∧
    NoDup (PyDict.keys rec) ∧
    (∀ n, n ∈ PyDict.keys rec ↔ n ∈ ["a"; "b"; "a"]) ∧
    (∀ n v, PyDict.get n rec = Some v ↔ (n, v) ∈ rec).
Proof.
  apply (parse_response_record_keys
           {| columns := Some duplicate_columns;
              data := Some [ [VInt 1; VInt 2; VInt 3] ] |}
           [] duplicate_columns ["a"; "b"; "a"] [ [VInt 1; VInt 2; VInt 3] ] 0
           [VInt 1; VInt 2; VInt 3]).
  - reflexivity.
  - repeat constructor.
  - reflexivity.
  - reflexivity.
Defined.

(** ** More on the constructor *)

Lemma rstrip_app_char (chars s : string) (a : Ascii.ascii) :
  char_in a chars = true →
  rstrip chars (s +:+ String a EmptyString) = rstrip chars s.
Proof.
  intros Ha. induction s as [|b s IH]; simpl.
  - by rewrite Ha.
  - by rewrite IH.
Qed.

Lemma truthy_Some (s : string) : truthy (Some s) = true ↔ s ≠ "".
Proof. simpl. case_bool_decide; naive_solver. Qed.

Lemma truthy_false (o : option string) :
  truthy o = false ↔ ∀ s, o = Some s → s = "".
Proof.
  destruct o as [s|]; simpl; [|by split].
  case_bool_decide as Hs; simpl; split; try done.
  - by intros _ s' [= <-].
  - intros H. by destruct Hs; apply H.
Qed.

(** The base URL of a client never ends with a slash. It is the explicit
    argument when that is a non-empty string, otherwise the value of
    [CAMBRIAN_BASE_URL] when the variable is set, the empty string
    included, otherwise the production URL; trailing slashes are
    removed. *)
Theorem init_base_url_resolution (env : environ) (key burl : option string)
    (self : CambrianAPI) :
  __init__ env key burl = Return self →
  ends_with_slash (base_url self) = false ∧
  (∀ b, burl = Some b → b ≠ "" → base_url self = rstrip "/" b) ∧
  ((∀ b, burl = Some b → b = "") →
   ∀ u, env !! "CAMBRIAN_BASE_URL" = Some u → base_url self = rstrip "/" u) ∧
  ((∀ b, burl = Some b → b = "") →
   env !! "CAMBRIAN_BASE_URL" = None →
   base_url self = "https://opabinia.cambrian.network/api/v1").
Proof.
  intros Hinit. rewrite (init_base_url _ _ _ _ Hinit).
  split; [apply rstrip_ends_with_slash |].
  unfold configured_base_url, py_or_str, py_or, getenv_default.
  split; [|split].
  - intros b -> Hb. apply truthy_Some in Hb. by rewrite Hb.
  - intros Hb u Hu. apply truthy_false in Hb. by rewrite Hb, Hu.
  - intros Hb Hu. apply truthy_false in Hb. by rewrite Hb, Hu.
Qed.

Lemma init_base_url_resolution_witness :
  ∃ self,
    __init__ {["CAMBRIAN_BASE_URL" := "http://localhost:8080//"]}
      (Some "key") (Some "") = Return self ∧
    base_url self = "http://localhost:8080".
Proof.
  eexists. split; [reflexivity |].
  exact (proj1 (proj2 (proj2
    (init_base_url_resolution {["CAMBRIAN_BASE_URL" := "http://localhost:8080//"]}
       (Some "key") (Some "") _ eq_refl)))
    (λ b H, eq_sym (f_equal (default "") H)) "http://localhost:8080//" eq_refl).
Defined.

(** A slash appended to a non-empty explicit base URL changes nothing:
    the same client is built, or the same exception raised. *)
Theorem init_trailing_slash (env : environ) (key : option string) (b : string) :
  b ≠ "" →
  __init__ env key (Some (b +:+ "/")) = __init__ env key (Some b).
Proof.
  intros Hb. unfold __init__.
  assert (Hconf : rstrip "/" (configured_base_url env (Some (b +:+ "/"))) =
                  rstrip "/" (configured_base_url env (Some b))).
  { unfold configured_base_url, py_or_str, py_or.
    assert (Hb' : b +:+ "/" ≠ "") by by destruct b.
    apply truthy_Some in Hb, Hb'. rewrite Hb, Hb'.
    by apply rstrip_app_char. }
  by rewrite Hconf.
Qed.

Lemma init_trailing_slash_witness :
  __init__ ∅ (Some "key") (Some ("https://h/api" +:+ "/")) =
  __init__ ∅ (Some "key") (Some "https://h/api").
Proof. apply init_trailing_slash. discriminate. Defined.

(** ** More on the request builder *)



(** For a method name in ASCII: no call is issued exactly when the
    method is neither GET nor POST in any letter case, and the outcome is
    then a [ValueError] that names the method as it was given. In no case
    is there more than one call. *)
Theorem make_request_unsupported (self : CambrianAPI) (net : network)
    (endpoint method : string) (params data : option pydict) :
  is_ascii method = true →
  length (_make_request self net endpoint method params data).1 ≤ 1 ∧
  ((_make_request self net endpoint method params data).1 = [] ↔
   upper method ≠ "GET" ∧ upper method ≠ "POST") ∧
  (upper method ≠ "GET" → upper method ≠ "POST" →
   (_make_request self net endpoint method params data).2 =
     Raise (ValueError ("Unsupported HTTP method: " +:+ method))).
Proof.
  intros _. unfold _make_request. repeat case_bool_decide; simpl.
  - split; [lia |]. split; [|done]. split; [done | by intros [? _]].
  - split; [lia |]. split; [|done]. split; [done | by intros [_ ?]].
  - split; [lia |]. done.
Qed.

Lemma make_request_unsupported_witness :
  (_make_request {| api_key := "k"; base_url := "https://h"; session := [] |}
     (λ _, NoReply) "solana/tokens" "put" None None).2 =
  Raise (ValueError "Unsupported HTTP method: put").
Proof.
  apply (proj2 (proj2 (make_request_unsupported
           {| api_key := "k"; base_url := "https://h"; session := [] |}
           (λ _, NoReply) "solana/tokens" "put" None None eq_refl)));
    discriminate.
Defined.

(** For a client that the constructor built, the URL of every call is
    the base URL, one slash, and the path: the base URL does not end with
    a slash and the path does not begin with one. Slashes before the
    endpoint make no difference to the call or to the outcome. *)
Theorem make_request_one_slash (env : environ) (key burl : option string)
    (self : CambrianAPI) (net : network) (endpoint method : string)
    (params data : option pydict) :
  __init__ env key burl = Return self →
  (∀ call, call ∈ (_make_request self net endpoint method params data).1 →
     ∃ p, call_url call = base_url self +:+ "/" +:+ p ∧
          ends_with_slash (base_url self) = false ∧
          starts_with_slash p = false) ∧
  _make_request self net ("/" +:+ endpoint) method params data =
  _make_request self net endpoint method params data.
Proof.
  intros Hinit. split; [|reflexivity].
  intros call Hcall. exists (lstrip "/" endpoint).
  split; [by eapply make_request_calls |].
  split; [|apply lstrip_starts_with_slash].
  rewrite (init_base_url _ _ _ _ Hinit). apply rstrip_ends_with_slash.
Qed.

Lemma make_request_one_slash_witness :
  ∃ self,
    __init__ ∅ (Some "key") (Some "https://h/api/") = Return self ∧
    _make_request self (λ _, NoReply) ("/" +:+ "solana/tokens") "GET" None None =
    _make_request self (λ _, NoReply) "solana/tokens" "GET" None None.
Proof.
  eexists. split; [reflexivity |].
  exact (proj2 (make_request_one_slash ∅ (Some "key") (Some "https://h/api/") _
                  (λ _, NoReply) "solana/tokens" "GET" None None eq_refl)).
Defined.

(** ** The endpoint methods *)

Lemma invoke_call (self : CambrianAPI) (net : network) (e : endpoint) :
  ∃ (call : http_call) (path : string),
    invoke self net e = ([call], send net call) ∧
    call_method call = GET ∧
    call_url call = base_url self +:+ "/" +:+ path ∧
    String.prefix "solana/" path = true ∧
    call_headers call = session self ∧
    call_json call = None.
Proof.
  destruct e; (eexists _, _; split; [reflexivity |]; by repeat split).
Qed.


(** Through a client that the constructor built, every call of an
    endpoint method carries the header [X-API-KEY] with the key of the
    client, which is not empty and is the explicit key whenever one was
    given. *)
Theorem endpoint_api_key_header (env : environ) (key burl : option string)
    (self : CambrianAPI) (net : network) (e : endpoint) (call : http_call) :
  __init__ env key burl = Return self →
  call ∈ (invoke self net e).1 →
  PyDict.get "X-API-KEY" (call_headers call) = Some (api_key self) ∧
  PyDict.get "Content-Type" (call_headers call) = Some "application/json" ∧
  api_key self ≠ "" ∧
  (∀ k, key = Some k → k ≠ "" → api_key self = k).
Proof.
  intros Hinit Hcall.
  destruct (invoke_call self net e) as [call' [path [He [_ [_ [_ [Hh _]]]]]]].
  rewrite He in Hcall. apply list_elem_of_singleton in Hcall as ->. rewrite Hh.
  unfold __init__ in Hinit.
  destruct (py_or key (getenv env "CAMBRIAN_API_KEY")) as [k0|] eqn:Hk0; [|done].
  destruct (negb (truthy (Some k0))) eqn:Ht; [done |].
  injection Hinit as <-. simpl.
  split; [done |]. split; [done |].
  apply negb_false_iff, truthy_Some in Ht. split; [done |].
  intros k -> Hk. unfold py_or in Hk0. apply truthy_Some in Hk.
  rewrite Hk in Hk0. congruence.
Qed.

Lemma endpoint_api_key_header_witness :
  ∃ self,
    __init__ {["CAMBRIAN_API_KEY" := "from-env"]} (Some "key") None = Return self ∧
    ∀ call,
      call ∈ (invoke self (λ _, NoReply) (CurrentPrice "So11")).1 →
      PyDict.get "X-API-KEY" (call_headers call) = Some "key".
Proof.
  eexists. split; [reflexivity |]. intros call Hcall.
  exact (proj1 (endpoint_api_key_header {["CAMBRIAN_API_KEY" := "from-env"]}
                  (Some "key") None _ (λ _, NoReply) (CurrentPrice "So11") call
                  eq_refl Hcall)).
Defined.

(** [get_wallet_history] always sends [wallet_address]; it sends
    [after_time] when that argument is a non-empty string, and leaves the
    parameter out when the argument is missing or empty. *)
Theorem wallet_history_after_time (self : CambrianAPI) (net : network)
    (wallet_address : string) (after_time : option string) :
  ∃ (call : http_call) (params : pydict),
    (get_wallet_history self net wallet_address after_time).1 = [call] ∧
    call_params call = Some params ∧
    PyDict.get "wallet_address" params = Some (VStr wallet_address) ∧
    (∀ t, after_time = Some t → t ≠ "" →
          PyDict.keys params = ["wallet_address"; "after_time"] ∧
          PyDict.get "after_time" params = Some (VStr t)) ∧
    ((∀ t, after_time = Some t → t = "") →
     PyDict.keys params = ["wallet_address"]).
Proof.
  unfold get_wallet_history.
  destruct after_time as [t|]; simpl.
  - case_bool_decide as Ht; simpl.
    + subst t. eexists _, _. split; [reflexivity |]. split; [reflexivity |].
      split; [reflexivity |]. split.
      * by intros t' [= <-] Hne.
      * done.
    + eexists _, _. split; [reflexivity |]. split; [reflexivity |].
      split; [reflexivity |]. split.
      * intros t' [= <-] _. by split.
      * intros H. by destruct Ht; apply H.
  - eexists _, _. repeat split; done.
Qed.

Lemma wallet_history_after_time_witness :
  ∃ (call : http_call) (params : pydict),
    (get_wallet_history {| api_key := "k"; base_url := "https://h"; session := [] |}
       (λ _, NoReply) "wallet" (Some "")).1 = [call] ∧
    call_params call = Some params ∧
    PyDict.keys params = ["wallet_address"].
Proof.
  destruct (wallet_history_after_time
              {| api_key := "k"; base_url := "https://h"; session := [] |}
              (λ _, NoReply) "wallet" (Some ""))
    as [call [params [Hcall [Hparams [_ [_ Hnone]]]]]].
  exists call, params. split; [exact Hcall |]. split; [exact Hparams |].
  apply Hnone. by intros t [= <-].
Defined.

(** ** The probe of the endpoints *)

Lemma test_path_success (self : CambrianAPI) (net : network) (path : string)
    (v : value) :
  net (probe self path) = Reply 200 (Some v) →
  test_path self net path = (probe self path, Return (Some v)).
Proof. intros H. unfold test_path. by rewrite H. Qed.

Lemma test_path_failure (self : CambrianAPI) (net : network) (path : string) :
  (∀ w, net (probe self path) ≠ Reply 200 (Some w)) →
  test_path self net path = (probe self path, Return None).
Proof.
  intros H. unfold test_path. destruct (net (probe self path)) as [|s body] eqn:Hn.
  - done.
  - case_bool_decide as Hs; [|done]. subst s.
    destruct body as [w|]; [by destruct (H w) | done].
Qed.

Lemma for_test_paths_none (self : CambrianAPI) (net : network) (l : list string) :
  (∀ q w, q ∈ l → net (probe self q) ≠ Reply 200 (Some w)) →
  for_test_paths self net l = (probe self <$> l, Return VNone).
Proof.
  induction l as [|q l IH]; intros H; [done |]. cbn [for_test_paths].
  rewrite test_path_failure by (intros w; apply H, list_elem_of_here).
  rewrite IH; [done |]. intros q' w Hq'. by apply H, list_elem_of_further.
Qed.

Lemma for_test_paths_first (self : CambrianAPI) (net : network)
    (l1 : list string) (p : string) (l2 : list string) (v : value) :
  (∀ q w, q ∈ l1 → net (probe self q) ≠ Reply 200 (Some w)) →
  net (probe self p) = Reply 200 (Some v) →
  for_test_paths self net (l1 ++ p :: l2) = (probe self <$> (l1 ++ [p]), Return v).
Proof.
  induction l1 as [|q l1 IH]; intros H Hp; cbn [for_test_paths app].
  - by rewrite (test_path_success _ _ _ _ Hp).
  - rewrite test_path_failure by (intros w; apply H, list_elem_of_here).
    rewrite IH; [done | | done]. intros q' w Hq'. by apply H, list_elem_of_further.
Qed.

(** [test_endpoints] probes [solana/latest-block], [solana/tokens] and
    [solana/trending-tokens] in this order and returns the decoded body
    of the first that answers with status 200 and a JSON body; a probe
    that fails in any way (no reply, another status, a body that is not
    JSON) is passed over, and no probe follows the first success. *)
Theorem test_endpoints_first_success (self : CambrianAPI) (net : network)
    (l1 : list string) (p : string) (l2 : list string) (v : value) :
  test_paths = l1 ++ p :: l2 →
  (∀ q w, q ∈ l1 → net (probe self q) ≠ Reply 200 (Some w)) →
  net (probe self p) = Reply 200 (Some v) →
  test_endpoints self net = (probe self <$> (l1 ++ [p]), Return v).
Proof.
  intros Hpaths Hl1 Hp. unfold test_endpoints. rewrite Hpaths.
  by apply for_test_paths_first.
Qed.

(** When none of the three probes answers with status 200 and a JSON
    body, [test_endpoints] has issued all three calls and returns
    [None]. *)
Theorem test_endpoints_no_success (self : CambrianAPI) (net : network) :
  (∀ q w, q ∈ test_paths → net (probe self q) ≠ Reply 200 (Some w)) →
  test_endpoints self net = (probe self <$> test_paths, Return VNone).
Proof. apply for_test_paths_none. Qed.

(** [test_endpoints] never raises: every exception of a probe is caught.
    It issues at least one and at most three calls, an initial part of
    the three probes, each a GET without parameters and without body. *)
Theorem test_endpoints_never_raises (self : CambrianAPI) (net : network) :
  ∃ (calls : list http_call) (v : value),
    test_endpoints self net = (calls, Return v) ∧
    calls `prefix_of` (probe self <$> test_paths) ∧
    1 ≤ length calls ≤ 3 ∧
    Forall (λ call, call_method call = GET ∧ call_params call = None ∧
                    call_json call = None) calls.
Proof.
  assert (Hgen : ∀ l, ∃ calls v,
    for_test_paths self net l = (calls, Return v) ∧
    calls `prefix_of` (probe self <$> l) ∧
    (l ≠ [] → calls ≠ [])).
  { induction l as [|q l IH]; cbn [for_test_paths].
    - exists [], VNone. by repeat split.
    - destruct (net (probe self q)) as [|s body] eqn:Hn.
      + rewrite test_path_failure by (intros w; by rewrite Hn).
        destruct IH as [calls [v [-> [Hpre _]]]].
        exists (probe self q :: calls), v. split; [done |].
        split; [by apply prefix_cons | done].
      + destruct (decide (s = 200%Z ∧ is_Some body)) as [[-> [w ->]]|Hno].
        * rewrite (test_path_success _ _ _ _ Hn).
          exists [probe self q], w. split; [done |].
          split; [apply prefix_cons, prefix_nil | done].
        * rewrite test_path_failure.
          -- destruct IH as [calls [v [-> [Hpre _]]]].
             exists (probe self q :: calls), v. split; [done |].
             split; [by apply prefix_cons | done].
          -- intros w. rewrite Hn. intros [= -> ->]. apply Hno. by split; [|eexists]. }
  destruct (Hgen test_paths) as [calls [v [Heq [Hpre Hne]]]].
  exists calls, v. split; [done |]. split; [done |].
  pose proof (prefix_length _ _ Hpre) as Hlen. rewrite length_fmap in Hlen.
  simpl in Hlen. split.
  - split; [|done]. destruct calls; [by destruct Hne | simpl; lia].
  - destruct Hpre as [k Hk]. apply Forall_forall. intros call Hin.
    assert (Hin' : call ∈ probe self <$> test_paths).
    { rewrite Hk. apply elem_of_app. by left. }
    apply list_elem_of_fmap in Hin' as [q [-> _]]. done.
Qed.

Lemma test_endpoints_first_success_witness :
  test_endpoints example_client network_tokens_only =
    ([probe example_client "solana/latest-block";
      probe example_client "solana/tokens"], Return (VList [])).
Proof.
  apply (test_endpoints_first_success example_client network_tokens_only
           ["solana/latest-block"] "solana/tokens" ["solana/trending-tokens"]
           (VList [])).
  - reflexivity.
  - intros q w Hq. apply list_elem_of_singleton in Hq as ->. discriminate.
  - reflexivity.
Defined.

Lemma test_endpoints_no_success_witness :
  test_endpoints example_client network_down =
    (probe example_client <$> test_paths, Return VNone).
Proof.
  apply (test_endpoints_no_success example_client network_down).
  intros q w _. discriminate.
Defined.

(** ** Stripping and splitting *)

Lemma append_cons (a : Ascii.ascii) (s t : string) :
  String a s +:+ t = String a (s +:+ t).
Proof. reflexivity. Qed.

Lemma append_nil_l (s : string) : "" +:+ s = s.
Proof. reflexivity. Qed.

Lemma append_nil_r (s : string) : s +:+ "" = s.
Proof.
  induction s as [|a s IH]; [done |]. by rewrite append_cons, IH.
Qed.

Lemma append_assoc (s1 s2 s3 : string) : (s1 +:+ s2) +:+ s3 = s1 +:+ s2 +:+ s3.
Proof.
  induction s1 as [|a s1 IH]; [done |]. by rewrite !append_cons, IH.
Qed.

Lemma append_nonempty_r (s1 s2 : string) : s2 ≠ "" → s1 +:+ s2 ≠ "".
Proof. by destruct s1. Qed.

Lemma length_lstrip (chars s : string) :
  String.length (lstrip chars s) ≤ String.length s.
Proof.
  induction s as [|a s IH]; simpl; [done |].
  destruct (char_in a chars); simpl; lia.
Qed.

(** A string that [lstrip] leaves alone begins with a character that is
    kept, so that nothing is stripped from it with more text behind. *)
Lemma lstrip_fixed_app (chars k s : string) :
  lstrip chars k = k → k ≠ "" → lstrip chars (k +:+ s) = k +:+ s.
Proof.
  destruct k as [|a k]; [done |]. rewrite append_cons. simpl. intros Hk _.
  destruct (char_in a chars); [|done].
  pose proof (length_lstrip chars k) as Hlen. rewrite Hk in Hlen. simpl in Hlen. lia.
Qed.

Lemma lstrip_all_in (chars ws s : string) :
  all_in chars ws = true → lstrip chars (ws +:+ s) = lstrip chars s.
Proof.
  induction ws as [|a ws IH]; [done |]. rewrite append_cons. simpl.
  intros [Ha Hws]%andb_true_iff. rewrite Ha. by apply IH.
Qed.

Lemma rstrip_all_in (chars ws s : string) :
  all_in chars ws = true → rstrip chars (s +:+ ws) = rstrip chars s.
Proof.
  revert s. induction ws as [|a ws IH]; intros s; simpl.
  - intros _. by rewrite append_nil_r.
  - intros [Ha Hws]%andb_true_iff.
    change (String a ws) with (String a "" +:+ ws).
    rewrite <- append_assoc, IH by done. by apply rstrip_app_char.
Qed.

Lemma rstrip_kept_char (chars s : string) (a : Ascii.ascii) :
  char_in a chars = false → rstrip chars (String a s) = String a (rstrip chars s).
Proof. intros Ha. simpl. rewrite Ha. by destruct (rstrip chars s). Qed.

Lemma rstrip_nonempty_app (chars s1 s2 : string) :
  rstrip chars s2 ≠ "" → rstrip chars (s1 +:+ s2) = s1 +:+ rstrip chars s2.
Proof.
  intros Hs2. induction s1 as [|a s1 IH]; [done |].
  rewrite !append_cons. simpl.
  rewrite IH. destruct (s1 +:+ rstrip chars s2) eqn:Heq; [|done].
  by apply append_nonempty_r in Heq.
Qed.

Lemma contains_app (c s1 s2 : string) :
  contains c (s1 +:+ s2) = contains c s1 || contains c s2.
Proof.
  induction s1 as [|a s1 IH]; [done |]. rewrite append_cons. simpl.
  by rewrite IH, orb_assoc.
Qed.

Lemma contains_lstrip (c chars s : string) :
  contains c s = false → contains c (lstrip chars s) = false.
Proof.
  induction s as [|a s IH]; simpl; [done |].
  intros [Ha Hs]%orb_false_iff. destruct (char_in a chars); [by apply IH |].
  simpl. by rewrite Ha, Hs.
Qed.

Lemma contains_rstrip (c chars s : string) :
  contains c s = false → contains c (rstrip chars s) = false.
Proof.
  induction s as [|a s IH]; simpl; [done |].
  intros [Ha Hs]%orb_false_iff. specialize (IH Hs).
  destruct (rstrip chars s) as [|b t].
  - destruct (char_in a chars); simpl; [done | by rewrite Ha].
  - simpl in *. by rewrite Ha, IH.
Qed.

Lemma split1_first (c k v : string) (a : Ascii.ascii) :
  contains c k = false → char_in a c = true →
  split1 c (k +:+ String a v) = (k, Some v).
Proof.
  intros Hk Ha. induction k as [|b k IH].
  - rewrite append_nil_l. simpl. by rewrite Ha.
  - simpl in Hk. apply orb_false_iff in Hk as [Hb Hk].
    rewrite append_cons. simpl. by rewrite Hb, (IH Hk).
Qed.

(** With the character in the string, the split gives two parts. *)
Lemma split1_contains (c s : string) :
  contains c s = true → ∃ k v, split1 c s = (k, Some v).
Proof.
  induction s as [|a s IH]; simpl; [done |].
  destruct (char_in a c); simpl; [by eexists _, _ |].
  intros Hs. destruct (IH Hs) as [k [v ->]]. by eexists _, _.
Qed.

Lemma whitespace_no_equals (ws : string) :
  all_in whitespace ws = true → contains "=" ws = false.
Proof.
  induction ws as [|a ws IH]; simpl; [done |].
  intros [Ha Hws]%andb_true_iff. rewrite (IH Hws), orb_false_r.
  destruct (char_in a "=") eqn:Heq; [|done].
  unfold char_in in Heq. apply bool_decide_eq_true in Heq. simpl in Heq.
  apply list_elem_of_singleton in Heq as ->. by vm_compute in Ha.
Qed.

Lemma strip_all_in (ws : string) : all_in whitespace ws = true → strip ws = "".
Proof.
  intros Hws. unfold strip.
  pose proof (rstrip_all_in _ ws "" Hws) as H. rewrite append_nil_l in H.
  by rewrite H.
Qed.

(** Padding around a trimmed string is stripped, and nothing else. *)
Lemma strip_padded (ws1 s ws2 : string) :
  all_in whitespace ws1 = true → all_in whitespace ws2 = true → trimmed s →
  strip (ws1 +:+ s +:+ ws2) = s.
Proof.
  intros H1 H2 [Hl Hr]. unfold strip.
  rewrite <- append_assoc, (rstrip_all_in _ ws2 _ H2).
  destruct (decide (s = "")) as [->|Hs].
  - rewrite append_nil_r.
    pose proof (rstrip_all_in _ ws1 "" H1) as H. rewrite append_nil_l in H.
    by rewrite H.
  - rewrite rstrip_nonempty_app by (by rewrite Hr).
    by rewrite Hr, (lstrip_all_in _ _ _ H1).
Qed.

(** ** Loading [.env] *)

Lemma prefix_one_char (c a : Ascii.ascii) (x y : string) :
  String.prefix (String c "") (String a x) = String.prefix (String c "") (String a y).
Proof.
  cbn [String.prefix]. destruct (Ascii.ascii_dec c a); [by destruct x, y | done].
Qed.

Lemma prefix_hash (s : string) : String.prefix "#" ("#" +:+ s) = true.
Proof.
  rewrite append_cons, append_nil_l. by destruct s.
Qed.

(** A line is skipped, and the environment left as it is, when the line
    is blank, when its first character after leading whitespace is [#],
    or when it has no equals sign. *)
Theorem load_env_line_skipped (env : environ) (line : string) :
  all_in whitespace line = true ∨
  (∃ ws rest, all_in whitespace ws = true ∧ line = ws +:+ "#" +:+ rest) ∨
  contains "=" line = false →
  load_env_line env line = Return env.
Proof.
  unfold load_env_line. intros [Hblank|[[ws [rest [Hws ->]]]|Hno]].
  - by rewrite (strip_all_in _ Hblank).
  - assert (Hstrip : strip (ws +:+ "#" +:+ rest) =
                     "#" +:+ rstrip whitespace rest).
    { unfold strip.
      assert (Hr : rstrip whitespace ("#" +:+ rest) = "#" +:+ rstrip whitespace rest).
      { rewrite !append_cons, !append_nil_l. by apply rstrip_kept_char. }
      rewrite rstrip_nonempty_app by (by rewrite Hr).
      rewrite Hr, (lstrip_all_in _ _ _ Hws). by rewrite !append_cons, !append_nil_l. }
    rewrite Hstrip, prefix_hash. by destruct (negb (bool_decide _)).
  - assert (Hstrip : contains "=" (strip line) = false)
      by by apply contains_lstrip, contains_rstrip.
    rewrite Hstrip. by rewrite andb_false_r.
Qed.

Lemma load_env_line_skipped_witness :
  load_env_line {["HOME" := "/root"]} "   # CAMBRIAN_API_KEY=old" =
  Return {["HOME" := "/root"]}.
Proof.
  apply load_env_line_skipped. right. left.
  exists "   ", " CAMBRIAN_API_KEY=old". split; reflexivity.
Defined.

(** A line [K=V], with any whitespace before [K], around the first
    equals sign and after [V], sets [K] to [V] and replaces what the
    environment held for [K]. Here [K] is not empty, has no whitespace at
    its ends, no equals sign and no leading [#]; [V] has no whitespace at
    its ends, and may be empty or hold further equals signs; neither has
    a NUL. *)
Theorem load_env_line_assignment (env : environ) (ws1 k ws2 ws3 v ws4 : string) :
  all_in whitespace ws1 = true → all_in whitespace ws2 = true →
  all_in whitespace ws3 = true → all_in whitespace ws4 = true →
  k ≠ "" → trimmed k → trimmed v →
  contains "=" k = false → String.prefix "#" k = false →
  contains NUL k = false → contains NUL v = false →
  load_env_line env (ws1 +:+ k +:+ ws2 +:+ "=" +:+ ws3 +:+ v +:+ ws4) =
  Return (<[k := v]> env).
Proof.
  intros H1 H2 H3 H4 Hk Hkt Hvt Hkeq Hkhash Hknul Hvnul.
  set (T := rstrip whitespace (ws3 +:+ v +:+ ws4)).
  assert (Hstrip : strip (ws1 +:+ k +:+ ws2 +:+ "=" +:+ ws3 +:+ v +:+ ws4) =
                   (k +:+ ws2) +:+ "=" +:+ T).
  { unfold strip.
    assert (HrT : rstrip whitespace ("=" +:+ ws3 +:+ v +:+ ws4) = "=" +:+ T).
    { rewrite !(append_cons _ ""), !append_nil_l. by apply rstrip_kept_char. }
    assert (R2 : rstrip whitespace (ws2 +:+ "=" +:+ ws3 +:+ v +:+ ws4) =
                 ws2 +:+ "=" +:+ T).
    { rewrite rstrip_nonempty_app by (by rewrite HrT). by rewrite HrT. }
    assert (R3 : rstrip whitespace (k +:+ ws2 +:+ "=" +:+ ws3 +:+ v +:+ ws4) =
                 k +:+ ws2 +:+ "=" +:+ T).
    { rewrite rstrip_nonempty_app; rewrite R2; [done |].
      by apply append_nonempty_r. }
    rewrite rstrip_nonempty_app; rewrite R3;
      [|by apply append_nonempty_r, append_nonempty_r].
    rewrite (lstrip_all_in _ _ _ H1).
    rewrite (lstrip_fixed_app _ _ _ (proj1 Hkt) Hk).
    by rewrite append_assoc. }
  assert (HT : strip T = v).
  { unfold T. rewrite <- (append_nil_l (ws3 +:+ v +:+ ws4)).
    unfold strip. 
    assert (Hidem : rstrip whitespace (rstrip whitespace ("" +:+ ws3 +:+ v +:+ ws4))
                    = rstrip whitespace ("" +:+ ws3 +:+ v +:+ ws4)).
    { rewrite append_nil_l, <- append_assoc, (rstrip_all_in _ ws4 _ H4).
      destruct (decide (v = "")) as [->|Hv].
      - rewrite append_nil_r.
        pose proof (rstrip_all_in _ ws3 "" H3) as H. rewrite append_nil_l in H.
        by rewrite H.
      - rewrite rstrip_nonempty_app by (by rewrite (proj2 Hvt)).
        rewrite (proj2 Hvt).
        rewrite rstrip_nonempty_app by (by rewrite (proj2 Hvt)).
        by rewrite (proj2 Hvt). }
    rewrite Hidem. rewrite append_nil_l.
    by apply (strip_padded ws3 v ws4). }
  assert (Hkey : strip (k +:+ ws2) = k).
  { rewrite <- (append_nil_l (k +:+ ws2)). by apply (strip_padded "" k ws2). }
  unfold load_env_line. rewrite Hstrip.
  assert (Hnokeq : contains "=" (k +:+ ws2) = false).
  { by rewrite contains_app, Hkeq, (whitespace_no_equals _ H2). }
  rewrite bool_decide_eq_false_2
    by (rewrite append_assoc; by apply append_nonempty_r, append_nonempty_r).
  assert (Hhash : String.prefix "#" ((k +:+ ws2) +:+ "=" +:+ T) = false).
  { destruct k as [|a k']; [done |]. rewrite !append_cons.
    by rewrite (prefix_one_char _ _ _ k'). }
  rewrite Hhash, contains_app. simpl.
  rewrite orb_true_r. simpl.
  rewrite (append_cons _ "" T), append_nil_l.
  rewrite split1_first by done. simpl.
  rewrite Hkey, HT. unfold environ_setitem.
  rewrite Hknul, Hvnul, Hkeq. simpl.
  by rewrite bool_decide_eq_false_2.
Qed.

Lemma load_env_line_assignment_witness :
  load_env_line {["CAMBRIAN_API_KEY" := "old"]} "  CAMBRIAN_API_KEY = abc=123
" = Return (<["CAMBRIAN_API_KEY" := "abc=123"]> {["CAMBRIAN_API_KEY" := "old"]}).
Proof.
  exact (load_env_line_assignment {["CAMBRIAN_API_KEY" := "old"]}
           "  " "CAMBRIAN_API_KEY" " " " " "abc=123" "
"
           eq_refl eq_refl eq_refl eq_refl
           (λ H, eq_ind "CAMBRIAN_API_KEY"
                   (λ s, match s with EmptyString => False | String _ _ => True end)
                   I "" H)
           (conj eq_refl eq_refl) (conj eq_refl eq_refl)
           eq_refl eq_refl eq_refl eq_refl).
Defined.

Lemma split1_key (c s k : string) (v : option string) :
  split1 c s = (k, v) → contains c k = false.
Proof.
  revert k v. induction s as [|a s IH]; intros k v; simpl.
  - by intros [= <- <-].
  - destruct (char_in a c) eqn:Ha; [by intros [= <- <-] |].
    destruct (split1 c s) as [k' v'] eqn:Hs. intros [= <- <-]. simpl.
    rewrite Ha. by eapply IH.
Qed.

(** The guard ['=' in line] makes the unpacking of the split safe: when
    a line raises, it is the assignment to [os.environ] that does, with
    [ValueError] for a NUL in the key or in the value, or with
    [OSError(22, 'Invalid argument')] for an empty key; the key is the
    stripped text before the first equals sign of the stripped line. *)
Theorem load_env_line_raises (env : environ) (line : string) (e : exception) :
  load_env_line env line = Raise e →
  ∃ key value,
    split1 "=" (strip line) = (key, Some value) ∧
    ((e = ValueError "embedded null byte" ∧
      (contains NUL (strip key) = true ∨ contains NUL (strip value) = true)) ∨
     (e = OSError 22 "Invalid argument" ∧ strip key = "")).
Proof.
  unfold load_env_line.
  destruct (negb (bool_decide (strip line = "")) && negb (String.prefix "#" (strip line)))
    ; simpl; [|done].
  destruct (contains "=" (strip line)) eqn:Hc; [|done].
  destruct (split1_contains _ _ Hc) as [k [v Hsplit]]. rewrite Hsplit. simpl.
  assert (Hkeq : contains "=" (strip k) = false).
  { apply contains_lstrip, contains_rstrip. by eapply split1_key. }
  unfold environ_setitem. rewrite Hkeq.
  destruct (contains NUL (strip k) || contains NUL (strip v)) eqn:Hnul.
  - intros [= <-]. exists k, v. split; [done |]. left. split; [done |].
    by apply orb_true_iff.
  - case_bool_decide as Hk; [|done].
    intros [= <-]. exists k, v. split; [done |]. by right.
Qed.

Lemma load_env_line_raises_witness :
  load_env_line ∅ "=value" = Raise (OSError 22 "Invalid argument") ∧
  ∃ key value,
    split1 "=" (strip "=value") = (key, Some value) ∧
    ((OSError 22 "Invalid argument" = ValueError "embedded null byte" ∧
      (contains NUL (strip key) = true ∨ contains NUL (strip value) = true)) ∨
     (OSError 22 "Invalid argument" = OSError 22 "Invalid argument" ∧
      strip key = "")).
Proof.
  split; [reflexivity |].
  exact (load_env_line_raises ∅ "=value" (OSError 22 "Invalid argument") eq_refl).
Defined.

(** What a line does is the same on every environment: it sets one
    variable to one value, or leaves the environment alone, or raises.
    No line reads the environment. *)
Theorem load_env_line_uniform (line : string) :
  (∃ k v, ∀ env, load_env_line env line = Return (<[k := v]> env)) ∨
  (∀ env, load_env_line env line = Return env) ∨
  (∃ e, ∀ env, load_env_line env line = Raise e).
Proof.
  unfold load_env_line.
  destruct (negb (bool_decide (strip line = "")) && negb (String.prefix "#" (strip line))
            && contains "=" (strip line)); [|by right; left].
  destruct (split1 "=" (strip line)) as [k [v|]]; simpl.
  - unfold environ_setitem.
    destruct (contains NUL (strip k) || contains NUL (strip v));
      [right; right; by eexists |].
    destruct (contains "=" (strip k)); [right; right; by eexists |].
    destruct (bool_decide (strip k = "")); [right; right; by eexists |].
    left. by eexists _, _.
  - right; right. by eexists.
Qed.

Lemma for_lines_app (env : environ) (f1 f2 : list string) :
  for_lines env (f1 ++ f2) = (for_lines env f1 ≫= λ env1, for_lines env1 f2).
Proof.
  revert env. induction f1 as [|line f1 IH]; intros env; simpl; [done |].
  destruct (load_env_line env line) as [env1|e]; simpl; [apply IH | done].
Qed.

Lemma for_lines_untouched (k : string) (f : list string) (env env' : environ) :
  (∀ line e e', line ∈ f → load_env_line e line = Return e' → e' !! k = e !! k) →
  for_lines env f = Return env' → env' !! k = env !! k.
Proof.
  revert env. induction f as [|line f IH]; intros env Hf; simpl.
  - by intros [= <-].
  - destruct (load_env_line env line) as [env1|e] eqn:Hline; simpl; [|done].
    intros Hrest. rewrite (IH env1).
    + eapply Hf; [apply list_elem_of_here | done].
    + intros l e0 e0' Hl. apply Hf. by apply list_elem_of_further.
    + done.
Qed.

Lemma for_lines_last_assignment (f1 : list string) (line : string)
    (f2 : list string) (k v : string) (env env' : environ) :
  for_lines env (f1 ++ line :: f2) = Return env' →
  (∀ e, load_env_line e line = Return (<[k := v]> e)) →
  (∀ l e e', l ∈ f2 → load_env_line e l = Return e' → e' !! k = e !! k) →
  env' !! k = Some v.
Proof.
  rewrite for_lines_app. intros Hload Hline Hf2.
  destruct (for_lines env f1) as [env1|e]; simpl in Hload; [|done].
  rewrite Hline in Hload. simpl in Hload.
  rewrite (for_lines_untouched k f2 _ _ Hf2 Hload).
  apply lookup_insert_eq.
Qed.

(** The last line of the file that sets a variable decides its value
    after [load_env], whatever the environment held before and whatever
    earlier lines did. *)
Theorem load_env_last_assignment (f1 : list string) (line : string)
    (f2 : list string) (k v : string) (env env' : environ) :
  load_env (Some (f1 ++ line :: f2)) env = Return env' →
  (∀ e, load_env_line e line = Return (<[k := v]> e)) →
  (∀ l e e', l ∈ f2 → load_env_line e l = Return e' → e' !! k = e !! k) →
  env' !! k = Some v.
Proof. apply for_lines_last_assignment. Qed.

Lemma load_env_last_assignment_witness :
  ∃ env',
    load_env (Some ["CAMBRIAN_API_KEY=first"; "CAMBRIAN_API_KEY=new"; "# end"])
      {["CAMBRIAN_API_KEY" := "old"]} = Return env' ∧
    env' !! "CAMBRIAN_API_KEY" = Some "new".
Proof.
  eexists. split; [reflexivity |].
  apply (load_env_last_assignment
           ["CAMBRIAN_API_KEY=first"] "CAMBRIAN_API_KEY=new" ["# end"]
           "CAMBRIAN_API_KEY" "new" {["CAMBRIAN_API_KEY" := "old"]}).
  - reflexivity.
  - intros e. reflexivity.
  - intros l e e' Hl. apply list_elem_of_singleton in Hl as ->.
    by intros [= <-].
Defined.

(** The module loads [.env] on import and the client is built after: a
    non-empty [CAMBRIAN_API_KEY] set by the last line of the file that
    sets it is the key of a client built without an explicit key, also
    when the environment had another value for the variable. *)
Theorem load_env_then_init (f1 : list string) (line : string) (f2 : list string)
    (v : string) (env env' : environ) (key burl : option string) :
  load_env (Some (f1 ++ line :: f2)) env = Return env' →
  (∀ e, load_env_line e line = Return (<["CAMBRIAN_API_KEY" := v]> e)) →
  (∀ l e e', l ∈ f2 → load_env_line e l = Return e' →
             e' !! "CAMBRIAN_API_KEY" = e !! "CAMBRIAN_API_KEY") →
  v ≠ "" → (∀ k, key = Some k → k = "") →
  ∃ self, __init__ env' key burl = Return self ∧ api_key self = v.
Proof.
  intros Hload Hline Hf2 Hv Hkey.
  pose proof (for_lines_last_assignment _ _ _ _ _ _ _ Hload Hline Hf2) as Henv.
  unfold __init__, py_or, getenv.
  apply truthy_false in Hkey. rewrite Hkey, Henv.
  apply truthy_Some in Hv. rewrite Hv. simpl. by eexists.
Qed.

Lemma load_env_then_init_witness :
  ∃ env' self,
    load_env (Some ["# keys"; "CAMBRIAN_API_KEY = new"; "OTHER=1"])
      {["CAMBRIAN_API_KEY" := "old"]} = Return env' ∧
    __init__ env' None None = Return self ∧ api_key self = "new".
Proof.
  eexists. 
  assert (H : ∃ self, __init__
            (<["OTHER" := "1"]> (<["CAMBRIAN_API_KEY" := "new"]>
               ({["CAMBRIAN_API_KEY" := "old"]} : environ))) None None
            = Return self ∧ api_key self = "new").
  { apply (load_env_then_init ["# keys"] "CAMBRIAN_API_KEY = new" ["OTHER=1"]
             "new" {["CAMBRIAN_API_KEY" := "old"]} _ None None).
    - reflexivity.
    - intros e. reflexivity.
    - intros l e e' Hl. apply list_elem_of_singleton in Hl as ->.
      intros [= <-]. by rewrite lookup_insert_ne.
    - discriminate.
    - discriminate. }
  destruct H as [self [Hinit Hk]]. exists self. split; [reflexivity |]. by split.
Defined.
